(** * heart_simulation: the BPM estimator and the synthetic ECG generators

    A shallow embedding of the numeric core of the application:

    - [calculateStableBPM] and [loadEcgData], of the loader module (the one
      that imports ./ecgGenerator and ECG_CONFIG);
    - [generateRealisticECG], of ./ecgGenerator;
    - [generateECGPoint], the interval-walking generator inside the web
      worker of components/ECGVisualization/ECGVisualization.js.

    Number model.  The estimator is embedded twice.  [Estimator64] is the
    code in its own arithmetic: IEEE 754 binary64, with the operations of
    the Standard Library's [SpecFloat]; what the estimator returns for
    given entry times is stated on it.  [Estimator] reads the same code
    over exact rationals ([Q]), for the properties that do not depend on
    rounding (which error is thrown on which structure of the input, how
    two runs relate, bounds with slack).  The generators call [Math.sin],
    [Math.cos] and [Math.exp]: their numbers are real numbers ([R]), and
    the statements about them are on the quantities that the code itself
    computes, under the positive sampling rate and heart rate for which
    neither NaN nor an infinity arises. *)

From Stdlib Require Import String List Bool Arith ZArith QArith Qround Lia Lqa.
From Stdlib Require Import Reals Psatz.
From Stdlib Require Import Floats.SpecFloat.
Import ListNotations.
Open Scope string_scope.
Open Scope list_scope.

(** ** JavaScript values, errors and the exception monad *)

Module JS.

#[local] Set Warnings "-register-all".

(** What [JSON.parse] can produce, and [undefined] for an absent property. *)
Inductive jsval : Type :=
| VUndefined
| VNull
| VBool (b : bool)
| VNumber (q : Q)
| VString (s : string)
| VObject (props : list (string * jsval))
| VArray (elems : list jsval).

(** The errors thrown in the loader module, by kind; the comment gives
    the message of the [Error] object. *)
Inductive error : Type :=
| InsufficientData       (* 'Need at least 2 QRS complexes for accurate calculation' *)
| NoValidIntervals       (* 'No valid RR intervals found' *)
| OutOfRange (bpm : Z)   (* `Calculated BPM ${bpm} outside valid range` *)
| TypeError              (* a property read on null or undefined *)
| FetchRejected          (* the promise of fetch rejects *)
| LoadFailed             (* 'Failed to load interval data' *)
| SyntaxError            (* response.json() rejects *)
| ExpectedArray.         (* 'Expected array data' *)

Inductive result (A : Type) : Type :=
| Ok (a : A)
| Throw (e : error).
Arguments Ok {A} a.
Arguments Throw {A} e.

Definition bind {A B} (m : result A) (k : A -> result B) : result B :=
  match m with
  | Ok a => k a
  | Throw e => Throw e
  end.

Declare Scope js_scope.
Delimit Scope js_scope with js.
Notation "x <- m ;; k" := (bind m (fun x => k))
  (at level 61, m at next level, right associativity) : js_scope.

(** The own properties of an object, as an association list; an object
    holds a key once, and [lookup] stops at the first binding. *)
Fixpoint lookup (key : string) (props : list (string * jsval)) : jsval :=
  match props with
  | [] => VUndefined
  | (k, v) :: rest => if String.eqb k key then v else lookup key rest
  end.

(** [v.key] for one of the keys the program reads ([phase], [entry],
    [duration]): a [TypeError] on [null] and [undefined], the own
    property on an object, [undefined] on an array or a primitive. *)
Definition get_prop (v : jsval) (key : string) : result jsval :=
  match v with
  | VUndefined | VNull => Throw TypeError
  | VObject props => Ok (lookup key props)
  | VBool _ | VNumber _ | VString _ | VArray _ => Ok VUndefined
  end.

Definition typeof (v : jsval) : string :=
  match v with
  | VUndefined => "undefined"
  | VNull => "object"
  | VBool _ => "boolean"
  | VNumber _ => "number"
  | VString _ => "string"
  | VObject _ => "object"
  | VArray _ => "object"
  end.

(** [v === s] for a string literal [s]. *)
Definition strict_eq_string (v : jsval) (s : string) : bool :=
  match v with
  | VString s' => String.eqb s' s
  | _ => false
  end.

(** [Array.prototype.filter] with a callback that may throw. *)
Fixpoint filter (p : jsval -> result bool) (l : list jsval)
  : result (list jsval) :=
  match l with
  | [] => Ok []
  | x :: rest =>
      bind (p x) (fun keep =>
      bind (filter p rest) (fun kept =>
      Ok (if keep then x :: kept else kept)))
  end.

(** [Math.round]: the nearest integer, a tie going towards +infinity. *)
Definition Math_round (x : Q) : Z := Qfloor (x + (1 # 2)).

Definition Qltb (x y : Q) : bool := negb (Qle_bool y x).

End JS.

(** ** The BPM estimator *)

Module Estimator.
Import JS.
Local Open Scope Q_scope.
Local Open Scope js_scope.

(** The callback of the filter in [calculateStableBPM]:
    [event.phase === "QRS" && typeof event.entry === 'number' &&
     typeof event.duration === 'number']. *)
Definition is_qrs_event (event : jsval) : result bool :=
  phase <- get_prop event "phase" ;;
  if strict_eq_string phase "QRS" then
    entry <- get_prop event "entry" ;;
    if String.eqb (typeof entry) "number" then
      duration <- get_prop event "duration" ;;
      Ok (String.eqb (typeof duration) "number")
    else Ok false
  else Ok false.

(** [qrsEvents[i].entry] as a number.  Every event that passed the filter
    has a numeric [entry] (lemma [filter_entry_number]); the other
    branches are never reached. *)
Definition entry_of (event : jsval) : Q :=
  match get_prop event "entry" with
  | Ok (VNumber q) => q
  | _ => 0
  end.

(** [rrInterval > 0.3 && rrInterval < 2.0] *)
Definition plausible (rrInterval : Q) : bool :=
  Qltb (3 # 10) rrInterval && Qltb rrInterval 2.

(** The loop [for (let i = 1; i < qrsEvents.length; i++)]; [fuel] is the
    number of iterations left, the accumulator is
    [(totalRR, validRRCount)]. *)
Fixpoint rr_loop (qrsEvents : list jsval) (fuel i : nat) (acc : Q * nat)
  : Q * nat :=
  match fuel with
  | O => acc
  | S fuel' =>
      let rrInterval :=
        entry_of (nth i qrsEvents VUndefined)
        - entry_of (nth (i - 1) qrsEvents VUndefined) in
      let '(totalRR, validRRCount) := acc in
      rr_loop qrsEvents fuel' (S i)
        (if plausible rrInterval
         then (totalRR + rrInterval, S validRRCount)
         else (totalRR, validRRCount))
  end.

Definition calculateStableBPM (intervals : list jsval) : result Z :=
  qrsEvents <- filter is_qrs_event intervals ;;
  if (length qrsEvents <? 2)%nat then Throw InsufficientData else
  let '(totalRR, validRRCount) :=
    rr_loop qrsEvents (length qrsEvents - 1) 1 (0, O) in
  if (validRRCount =? 0)%nat then Throw NoValidIntervals else
  let avgRR := totalRR / inject_Z (Z.of_nat validRRCount) in
  let bpm := Math_round (60 / avgRR) in
  if ((bpm <? 40) || (bpm >? 180))%Z then Throw (OutOfRange bpm) else
  Ok bpm.

(** A record of the interval resource, as [JSON.parse] builds it. *)
Definition interval (phase : string) (entry duration : Q) : jsval :=
  VObject [("phase", VString phase); ("entry", VNumber entry);
           ("duration", VNumber duration)].

(** *** The estimator in the words of the specification

    Filter the QRS events, take the successive differences of their entry
    times, keep those in the open range (0.3, 2.0), average them, round
    60 / average, and check the result against [40, 180]. *)

(** An element on which a property can be read: anything but [null] and
    [undefined]; every record is one. *)
Definition readable (v : jsval) : Prop := v <> VNull /\ v <> VUndefined.

(** [v.key], with [undefined] where the read throws. *)
Definition field (v : jsval) (key : string) : jsval :=
  match get_prop v key with
  | Ok x => x
  | Throw _ => VUndefined
  end.

Definition is_number (v : jsval) : bool :=
  match v with
  | VNumber _ => true
  | _ => false
  end.

Definition has_qrs_phase (v : jsval) : bool :=
  strict_eq_string (field v "phase") "QRS".

(** A QRS event with numeric [entry] and [duration]. *)
Definition qualifies (v : jsval) : bool :=
  has_qrs_phase v && is_number (field v "entry")
  && is_number (field v "duration").

Definition qrs_events (intervals : list jsval) : list jsval :=
  List.filter qualifies intervals.

Definition qrs_entries (intervals : list jsval) : list Q :=
  map entry_of (qrs_events intervals).

(** The successive differences of a list of entry times. *)
Fixpoint rr_intervals (entries : list Q) : list Q :=
  match entries with
  | [] => []
  | a :: rest =>
      match rest with
      | [] => []
      | b :: _ => (b - a) :: rr_intervals rest
      end
  end.

Definition in_range (rr : Q) : Prop := 3 # 10 < rr /\ rr < 2.

Definition surviving (rrs : list Q) : list Q := List.filter plausible rrs.

Definition total (l : list Q) : Q := fold_left Qplus l 0.

Definition average (l : list Q) : Q :=
  total l / inject_Z (Z.of_nat (length l)).

(** The rounded rate of a list of entry times. *)
Definition rate (entries : list Q) : Z :=
  Math_round (60 / average (surviving (rr_intervals entries))).

Definition bpm_of_entries (entries : list Q) : result Z :=
  if (length entries <? 2)%nat then Throw InsufficientData else
  if (length (surviving (rr_intervals entries)) =? 0)%nat
  then Throw NoValidIntervals else
  if ((rate entries <? 40) || (rate entries >? 180))%Z
  then Throw (OutOfRange (rate entries))
  else Ok (rate entries).

(** What the estimator can see of the QRS-labelled records: their
    [entry] and [duration] fields, in order. *)
Definition qrs_view (intervals : list jsval) : list (jsval * jsval) :=
  map (fun v => (field v "entry", field v "duration"))
      (List.filter has_qrs_phase intervals).

Definition number_of (v : jsval) : Q :=
  match v with
  | VNumber q => q
  | _ => 0
  end.

Definition entries_of_view (view : list (jsval * jsval)) : list Q :=
  map (fun p => number_of (fst p))
      (List.filter (fun p => is_number (fst p) && is_number (snd p)) view).

(** One iteration of the loop, as a step on [(totalRR, validRRCount)]. *)
Definition rr_step (acc : Q * nat) (rr : Q) : Q * nat :=
  if plausible rr then (fst acc + rr, S (snd acc)) else acc.

Definition fails_out_of_range (r : result Z) : Prop :=
  exists bpm, r = Throw (OutOfRange bpm).

End Estimator.

(** ** Binary64 arithmetic *)

Module Binary64.

(** The format of a JavaScript number. *)
Definition prec : Z := 53.
Definition emax : Z := 1024.

Definition number : Type := spec_float.

(** The double nearest to an integer. *)
Definition of_Z (z : Z) : number := binary_normalize prec emax z 0 false.

Definition add : number -> number -> number := SFadd prec emax.
Definition sub : number -> number -> number := SFsub prec emax.
Definition div : number -> number -> number := SFdiv prec emax.
Definition ltb : number -> number -> bool := SFltb.

(** The double nearest to the rational [q], ties to even: what
    [JSON.parse] and the parser make of a decimal literal.  The quotient
    of the two integers is rounded once. *)
Definition of_Q (q : Q) : number :=
  match Qnum q with
  | Z0 => S754_zero false
  | Zpos n => div (S754_finite false n 0) (S754_finite false (Qden q) 0)
  | Zneg n => div (S754_finite true n 0) (S754_finite false (Qden q) 0)
  end.

(** [Math.round]: the integer nearest to [x], a tie going towards
    +infinity; -0 for [x] in [-0.5, -0]; [x] itself when it is an integer,
    an infinity or NaN. *)
Definition Math_round (x : number) : number :=
  match x with
  | S754_finite s m e =>
      if (0 <=? e)%Z then x else
      let n := ((2 * cond_Zopp s (Zpos m) + 2 ^ (- e)) / 2 ^ (1 - e))%Z in
      if (n =? 0)%Z then S754_zero s else of_Z n
  | _ => x
  end.

End Binary64.

(** ** The BPM estimator in binary64 *)

Module Estimator64.
Import JS Estimator Binary64.

(** What the estimator throws; the out-of-range error carries the BPM of
    its message. *)
Inductive error : Type :=
| InsufficientData
| NoValidIntervals
| OutOfRange (bpm : number)
| Callback (e : JS.error).   (* thrown by the callback of the filter *)

Inductive outcome : Type :=
| Return (bpm : number)
| Throw (e : error).

(** [event.entry] of an event of the parsed resource: the double nearest
    to the decimal written there.  (A resource cannot hold NaN or an
    infinity; a -0 written there differs from 0 only in the sign of a
    zero difference, which fails the range test either way.) *)
Definition entry (event : jsval) : number := of_Q (entry_of event).

(** [rrInterval > 0.3 && rrInterval < 2.0] *)
Definition plausible (rrInterval : number) : bool :=
  ltb (of_Q 0.3) rrInterval && ltb rrInterval (of_Q 2.0).

(** The loop [for (let i = 1; i < qrsEvents.length; i++)]; [fuel] is the
    number of iterations left, the accumulator is
    [(totalRR, validRRCount)]. *)
Fixpoint rr_loop (qrsEvents : list jsval) (fuel i : nat) (acc : number * nat)
  : number * nat :=
  match fuel with
  | O => acc
  | S fuel' =>
      let rrInterval :=
        sub (entry (nth i qrsEvents VUndefined))
            (entry (nth (i - 1) qrsEvents VUndefined)) in
      let '(totalRR, validRRCount) := acc in
      rr_loop qrsEvents fuel' (S i)
        (if plausible rrInterval
         then (add totalRR rrInterval, S validRRCount)
         else (totalRR, validRRCount))
  end.

Definition calculateStableBPM (intervals : list jsval) : outcome :=
  match JS.filter is_qrs_event intervals with
  | JS.Throw e => Throw (Callback e)
  | JS.Ok qrsEvents =>
      if (length qrsEvents <? 2)%nat then Throw InsufficientData else
      let '(totalRR, validRRCount) :=
        rr_loop qrsEvents (length qrsEvents - 1) 1 (of_Z 0, O) in
      if (validRRCount =? 0)%nat then Throw NoValidIntervals else
      let avgRR := div totalRR (of_Z (Z.of_nat validRRCount)) in
      let bpm := Math_round (div (of_Z 60) avgRR) in
      if ltb bpm (of_Z 40) || ltb (of_Z 180) bpm then Throw (OutOfRange bpm)
      else Return bpm
  end.

(** *** The steps of the estimator, in the arithmetic of the code *)

(** The entry times of the QRS events with numeric entry and duration. *)
Definition qrs_entries (intervals : list jsval) : list number :=
  map entry (qrs_events intervals).

(** The successive differences of the entry times, each one subtraction. *)
Fixpoint rr_intervals (entries : list number) : list number :=
  match entries with
  | [] => []
  | a :: rest =>
      match rest with
      | [] => []
      | b :: _ => sub b a :: rr_intervals rest
      end
  end.

(** [rr] passes the test of the open range (0.3, 2.0). *)
Definition in_range (rr : number) : Prop :=
  ltb (of_Q 0.3) rr = true /\ ltb rr (of_Q 2.0) = true.

Definition surviving (rrs : list number) : list number :=
  List.filter plausible rrs.

(** The sum, added up from 0 in the order of the list. *)
Definition total (l : list number) : number := fold_left add l (of_Z 0).

Definition average (l : list number) : number :=
  div (total l) (of_Z (Z.of_nat (length l))).

(** round(60 / average of the surviving RR intervals) *)
Definition rate (entries : list number) : number :=
  Math_round (div (of_Z 60) (average (surviving (rr_intervals entries)))).

Definition rr_step (acc : number * nat) (rr : number) : number * nat :=
  if plausible rr then (add (fst acc) rr, S (snd acc)) else acc.

Definition fails_out_of_range (r : outcome) : Prop :=
  exists bpm, r = Throw (OutOfRange bpm).

End Estimator64.

(** ** The synthetic generator (./ecgGenerator) *)

Module Generator.
Local Open Scope R_scope.

Record SamplePoint : Type := { time : R; value : R }.

(** Truncation towards zero. *)
Definition Rtrunc (x : R) : Z :=
  if Rle_dec 0 x then Zfloor x else Zceil x.

(** [x % y]: the remainder of the truncated division, with the sign of
    [x]. *)
Definition js_rem (x y : R) : R := x - y * IZR (Rtrunc (x / y)).

Definition Rgeb (x y : R) : bool := if Rle_dec y x then true else false.
Definition Rltb (x y : R) : bool := if Rlt_dec x y then true else false.

(** The noise-free value of a sample at [posInBeat]: the chain of
    conditionals in the body of the loop. *)
Definition wave (posInBeat : R) : R :=
  let value := 0 in
  if Rgeb posInBeat 0.1 && Rltb posInBeat 0.2 then
    0.25 * sin ((posInBeat - 0.1) * PI * 10)
  else if Rgeb posInBeat 0.2 && Rltb posInBeat 0.3 then
    let value := -0.2 * sin ((posInBeat - 0.2) * PI * 20) in
    if Rgeb posInBeat 0.22 && Rltb posInBeat 0.28 then
      1.5 * sin ((posInBeat - 0.22) * PI * 16.67)
    else value
  else if Rgeb posInBeat 0.4 && Rltb posInBeat 0.6 then
    0.3 * sin ((posInBeat - 0.4) * PI * 5)
  else value.

Section Generate.
(** [random i] is what the call of [Math.random()] made for sample [i]
    returns. *)
Variable random : nat -> R.

(** [(Math.random() - 0.5) * 0.05] *)
Definition noise (i : nat) : R := (random i - 0.5) * 0.05.

Definition posInBeat (samplesPerBeat : R) (i : nat) : R :=
  js_rem (INR i) samplesPerBeat / samplesPerBeat.

(** The loop [for (let i = 0; i < length; i++)], [fuel] iterations from
    [i] on, pushing onto [data]. *)
Fixpoint ecg_loop (samplingRate samplesPerBeat : R) (fuel i : nat)
  (data : list SamplePoint) : list SamplePoint :=
  match fuel with
  | O => data
  | S fuel' =>
      let value := wave (posInBeat samplesPerBeat i) in
      let value := value + noise i in
      ecg_loop samplingRate samplesPerBeat fuel' (S i)
        (data ++ [ {| time := INR i / samplingRate; value := value |} ])
  end.

(** [heartRate] is [None] when the caller leaves it out: the default
    parameter value 72. *)
Definition generateRealisticECG (length : nat) (samplingRate : R)
  (heartRate : option R) : list SamplePoint :=
  let heartRate := match heartRate with Some h => h | None => 72 end in
  let data := [] in
  let samplesPerBeat := (60 / heartRate) * samplingRate in
  ecg_loop samplingRate samplesPerBeat length 0 data.

(** The record pushed for sample [i]. *)
Definition sample (samplingRate samplesPerBeat : R) (i : nat) : SamplePoint :=
  {| time := INR i / samplingRate;
     value := wave (posInBeat samplesPerBeat i) + noise i |}.

End Generate.

(** [samplesPerBeat] as a function of the arguments. *)
Definition beat (samplingRate : R) (heartRate : option R) : R :=
  60 / match heartRate with Some h => h | None => 72 end * samplingRate.

(** The value of a sample with its noise term taken off. *)
Definition noise_free (random : nat -> R) (i : nat) (s : SamplePoint) : R :=
  value s - noise random i.

(** *** The waveform in the words of the specification *)

(** A half-sine of amplitude [A] over the window [[a, b)]: one arch of
    the sine, from 0 at [a] back to 0 at [b]. *)
Definition half_sine (A a b x : R) : R := A * sin (PI * (x - a) / (b - a)).

Definition spec_wave (p : R) : R :=
  if Rgeb p 0.10 && Rltb p 0.20 then half_sine 0.25 0.10 0.20 p
  else if Rgeb p 0.20 && Rltb p 0.30 then
    if Rgeb p 0.22 && Rltb p 0.28 then half_sine 1.5 0.22 0.28 p
    else half_sine (-0.2) 0.20 0.30 p
  else if Rgeb p 0.40 && Rltb p 0.60 then half_sine 0.3 0.40 0.60 p
  else 0.

End Generator.

(** ** The interval-walking generator of the chart's worker *)

Module Worker.
Import Generator.
Local Open Scope R_scope.

Record PhaseInterval : Type :=
  { phase : string; entry : R; duration : R }.

(** The [switch (interval.phase)] of [generateECGPoint]. *)
Definition shape (phase : string) (phaseProgress : R) : R :=
  if String.eqb phase "QRS" then
    if Rltb phaseProgress 0.15 then
      -0.3 * (1 - cos (phaseProgress / 0.15 * PI / 2))
    else if Rltb phaseProgress 0.35 then
      1.8 * sin ((phaseProgress - 0.15) / 0.2 * PI)
    else if Rltb phaseProgress 0.6 then
      -0.4 * (1 - (phaseProgress - 0.35) / 0.25)
    else 0
  else if String.eqb phase "PQ" then
    0.2 * sin (PI * phaseProgress * 2.5)
  else if String.eqb phase "ST" then
    if Rltb phaseProgress 0.4 then 0.05
    else 0.35 * sin ((phaseProgress - 0.4) / 0.6 * PI)
         * exp (- (phaseProgress - 0.4) / 0.6 * 2)
  else 0.

(** [time >= interval.entry && time < interval.entry + interval.duration] *)
Definition contains (interval : PhaseInterval) (time : R) : bool :=
  Rgeb time (entry interval) && Rltb time (entry interval + duration interval).

(** [for (const interval of intervals)], returning from the first
    interval that contains [time]. *)
Fixpoint generateECGPoint (intervals : list PhaseInterval) (time : R) : R :=
  match intervals with
  | [] => 0
  | interval :: rest =>
      if contains interval time then
        let phaseTime := time - entry interval in
        let phaseProgress := phaseTime / duration interval in
        shape (phase interval) phaseProgress
      else generateECGPoint rest time
  end.

(** [time] lies in the half-open span [[entry, entry + duration)]. *)
Definition in_span (interval : PhaseInterval) (time : R) : Prop :=
  entry interval <= time < entry interval + duration interval.

End Worker.

(** ** The loader *)

Module Loader.
Import JS Estimator Generator.

(** [ECG_CONFIG.SAMPLING_RATE] of components/AnimationManage/animationConfig. *)
Definition SAMPLING_RATE : R := 360%R.

(** What [fetch] resolves to: the [ok] flag and the outcome of
    [response.json()]. *)
Record Response : Type := { ok : bool; json : result jsval }.

(** Computations that may throw and that call [setRealBPM]: the state is
    the list of the values passed to [setRealBPM] so far, oldest first;
    it survives a throw. *)
Definition M (A : Type) : Type := list Z -> result A * list Z.

Definition ret {A} (a : A) : M A := fun calls => (Ok a, calls).

Definition throw {A} (e : error) : M A := fun calls => (Throw e, calls).

(** [await] of a promise that is already settled. *)
Definition await {A} (r : result A) : M A := fun calls => (r, calls).

Definition mbind {A B} (m : M A) (k : A -> M B) : M B :=
  fun calls =>
    match m calls with
    | (Ok a, calls') => k a calls'
    | (Throw e, calls') => (Throw e, calls')
    end.

Definition try_catch {A} (body : M A) (handler : error -> M A) : M A :=
  fun calls =>
    match body calls with
    | (Ok a, calls') => (Ok a, calls')
    | (Throw e, calls') => handler e calls'
    end.

Definition setRealBPM (bpm : Z) : M unit :=
  fun calls => (Ok tt, calls ++ [bpm]).

Declare Scope load_scope.
Notation "x <- m ;; k" := (mbind m (fun x => k))
  (at level 61, m at next level, right associativity) : load_scope.
Notation "m ;; k" := (mbind m (fun _ => k))
  (at level 61, right associativity) : load_scope.
Local Open Scope load_scope.

(** The body of the [try] block. *)
Definition load_body (random : nat -> R) (fetch : result Response)
  : M (list SamplePoint) :=
  response <- await fetch ;;
  if negb (ok response) then throw LoadFailed else
  intervalData <- await (json response) ;;
  match intervalData with
  | VArray intervals =>
      stableBPM <- await (calculateStableBPM intervals) ;;
      setRealBPM stableBPM ;;
      ret (generateRealisticECG random 1000 SAMPLING_RATE
             (Some (IZR stableBPM)))
  | _ => throw ExpectedArray
  end.

(** [fetch] is the settled outcome of [fetch('/pqrst_intervals.json')]. *)
Definition loadEcgData (random : nat -> R) (fetch : result Response)
  : M (list SamplePoint) :=
  try_catch (load_body random fetch)
    (fun error =>
       let fallbackBPM := 72%Z in
       setRealBPM fallbackBPM ;;
       ret (generateRealisticECG random 1000 SAMPLING_RATE
              (Some (IZR fallbackBPM)))).

(** The ways in which loading can fail before a BPM is known. *)
Inductive load_failure : result Response -> Prop :=
| fetch_fails e : load_failure (Throw e)
| response_not_ok body :
    load_failure (Ok {| ok := false; json := body |})
| parse_fails e :
    load_failure (Ok {| ok := true; json := Throw e |})
| not_an_array v :
    (forall elems, v <> VArray elems) ->
    load_failure (Ok {| ok := true; json := Ok v |})
| estimation_fails intervals e :
    calculateStableBPM intervals = Throw e ->
    load_failure (Ok {| ok := true; json := Ok (VArray intervals) |}).

End Loader.

(** ** The second loader of the loader module: [loadHeartData] *)

Module HeartData.
Import JS Loader.

(** What the body of [loadHeartData] throws. *)
Inductive load_error : Type :=
| Rejected (e : error)    (* fetch, or response.json(), rejects *)
| FailedToLoad            (* 'Failed to load heart data' *)
| ExpectedArrayData       (* 'Expected array data' *)
| EmptyIntervalData.      (* 'Empty interval data' *)

Inductive outcome (A : Type) : Type :=
| Return (a : A)
| Raise (e : load_error).
Arguments Return {A} a.
Arguments Raise {A} e.

Definition catch {A} (body : outcome A) (handler : load_error -> outcome A)
  : outcome A :=
  match body with
  | Return a => Return a
  | Raise e => handler e
  end.

(** The [try] block. *)
Definition heart_body (fetch : result Response) : outcome jsval :=
  match fetch with
  | Throw e => Raise (Rejected e)
  | Ok response =>
      if negb (ok response) then Raise FailedToLoad else
      match json response with
      | Throw e => Raise (Rejected e)
      | Ok data =>
          match data with
          | VArray elems =>
              if (length elems =? 0)%nat then Raise EmptyIntervalData
              else Return data
          | _ => Raise ExpectedArrayData
          end
      end
  end.

Definition loadHeartData (fetch : result Response) : outcome jsval :=
  catch (heart_body fetch) (fun error => Return VNull).

End HeartData.

(** ** The search for the current phase

    The loop [for (const interval of pqrstIntervals)] that stops at the
    first interval containing the time, as AnimationManager, HeartModel
    and App each write it. *)

Module Phases.
Import Generator Worker.
Local Open Scope R_scope.

Fixpoint first_containing (intervals : list PhaseInterval) (time : R)
  : option PhaseInterval :=
  match intervals with
  | [] => None
  | interval :: rest =>
      if contains interval time then Some interval
      else first_containing rest time
  end.

(** [let newPhase = 'ST'] and the loop assigning [interval.phase]. *)
Definition phase_at (intervals : list PhaseInterval) (time : R) : string :=
  match first_containing intervals time with
  | Some interval => phase interval
  | None => "ST"
  end.

(** The effect of App that computes the phase at the reference line of
    the chart; [None] when it returns before [setCurrentPhase]. *)
Definition app_phase (pqrstIntervals : list PhaseInterval) (timeElapsed : R)
  : option string :=
  if (length pqrstIntervals =? 0)%nat then None else
  let totalPoints := 800 in
  let referencePosition := 50 in
  let timeAtReference :=
    timeElapsed - ((totalPoints - referencePosition) / 300) in
  Some (phase_at pqrstIntervals timeAtReference).

End Phases.

(** ** AnimationManager: the phase effect and the virtual BPM *)

Module Manager.
Import JS Generator Worker Phases.

Definition PHASE_TO_FRAMES (phase : string) : option (Z * Z) :=
  if String.eqb phase "QRS" then Some (0, 4)%Z
  else if String.eqb phase "PQ" then Some (5, 14)%Z
  else if String.eqb phase "ST" then Some (15, 24)%Z
  else None.

(** The refs and the state of the component; [lastQrsTime] is in
    milliseconds, as [Date.now()]. *)
Record state : Type :=
  { currentPhase : string; qrsCount : nat; lastQrsTime : Z; virtualBPM : Z }.

Definition initial : state :=
  {| currentPhase := "ST"; qrsCount := 0; lastQrsTime := 0; virtualBPM := 0 |}.

(** [calculateBPM]; the second component is the value passed to
    [setVirtualBPM] and [onVirtualBPMChange], if any. *)
Definition calculateBPM (s : state) : state * option Z :=
  if (0 <? qrsCount s)%nat then
    let newBPM := Z.min (Z.of_nat (qrsCount s) * 2) 200 in
    ({| currentPhase := currentPhase s; qrsCount := 0;
        lastQrsTime := lastQrsTime s; virtualBPM := newBPM |}, Some newBPM)
  else
    ({| currentPhase := currentPhase s; qrsCount := 0;
        lastQrsTime := lastQrsTime s; virtualBPM := virtualBPM s |}, None).

(** [updateAnimationForPhase], as far as throwing goes: destructuring
    [PHASE_TO_FRAMES[phase]] throws when the phase is not a key (what the
    lookup gives then, [undefined] or a member of [Object.prototype], is
    not iterable).  [mixer] tells whether [mixerRef.current] is set. *)
Definition updateAnimationForPhase (mixer : bool) (phase : string)
  : result unit :=
  if negb mixer then Ok tt else
  match PHASE_TO_FRAMES phase with
  | Some _ => Ok tt
  | None => Throw TypeError
  end.

(** The counting of a QRS onset inside the loop. *)
Definition count_qrs (newPhase : string) (now : Z) (s : state) : state :=
  if String.eqb newPhase "QRS" && negb (String.eqb (currentPhase s) "QRS")
  then
    if (now - lastQrsTime s >? 200)%Z then
      {| currentPhase := currentPhase s; qrsCount := qrsCount s + 1;
         lastQrsTime := now; virtualBPM := virtualBPM s |}
    else s
  else s.

(** The effect on [timeElapsed]; [now] is what [Date.now()] returns.  The
    result is the phase passed to [setCurrentPhase], if any, or the error
    thrown by [updateAnimationForPhase] after the refs were updated. *)
Definition phase_effect (mixer : bool) (pqrstIntervals : list PhaseInterval)
  (timeElapsed : R) (now : Z) (s : state) : state * result (option string) :=
  if (length pqrstIntervals =? 0)%nat then (s, Ok None) else
  let newPhase := phase_at pqrstIntervals timeElapsed in
  let s1 :=
    match first_containing pqrstIntervals timeElapsed with
    | Some _ => count_qrs newPhase now s
    | None => s
    end in
  if negb (String.eqb (currentPhase s1) newPhase) then
    ({| currentPhase := newPhase; qrsCount := qrsCount s1;
        lastQrsTime := lastQrsTime s1; virtualBPM := virtualBPM s1 |},
     bind (updateAnimationForPhase mixer newPhase)
          (fun _ => Ok (Some newPhase)))
  else (s1, Ok None).

(** The effect on [isPlaying] and [speedMultiplier]: it returns at once
    without a mixer; with one, the counters are reset when pausing. *)
Definition play_effect (mixer isPlaying : bool) (s : state) : state :=
  if negb mixer then s else
  if negb isPlaying then
    {| currentPhase := currentPhase s; qrsCount := 0;
       lastQrsTime := lastQrsTime s; virtualBPM := 0 |}
  else s.

(** What can happen to the component. *)
Inductive event : Type :=
| Tick                                   (* the interval timer fires *)
| TimeElapsed (timeElapsed : R) (now : Z) (* the phase effect runs *)
| Playing (isPlaying : bool).            (* the play/pause effect runs *)

Definition step (mixer : bool) (pqrstIntervals : list PhaseInterval)
  (s : state) (e : event) : state :=
  match e with
  | Tick => fst (calculateBPM s)
  | TimeElapsed timeElapsed now =>
      fst (phase_effect mixer pqrstIntervals timeElapsed now s)
  | Playing isPlaying => play_effect mixer isPlaying s
  end.

Definition run (mixer : bool) (pqrstIntervals : list PhaseInterval)
  (events : list event) (s : state) : state :=
  fold_left (step mixer pqrstIntervals) events s.

(** The values the virtual BPM can take: 0, or an even number from 2 to
    200. *)
Definition bpm_shown (v : Z) : Prop :=
  v = 0%Z \/ ((2 <= v <= 200)%Z /\ Z.even v = true).

(** An event of the phase effect at a time inside a QRS interval. *)
Definition inside_qrs (pqrstIntervals : list PhaseInterval) (e : event)
  : Prop :=
  exists timeElapsed now interval,
    e = TimeElapsed timeElapsed now
    /\ first_containing pqrstIntervals timeElapsed = Some interval
    /\ phase interval = "QRS".

(** An event that is not a phase effect run more than 200 ms after
    [since]. *)
Definition within_debounce (since : Z) (e : event) : Prop :=
  match e with
  | TimeElapsed _ now => (now - since <= 200)%Z
  | _ => True
  end.

End Manager.

(** ** HeartModel: the frame of the current phase *)

Module HeartModel.
Import JS Generator Worker Phases.
Local Open Scope R_scope.

(** What [HEARTBEAT_FRAMES[phase]] gives: a frame range, [undefined], or,
    for the name of a member of [Object.prototype], that member, on
    which [.start] and [.end] are [undefined]. *)
Inductive frame_range : Type :=
| Range (frame_start frame_end : Z)
| Undefined
| Inherited.

Definition prototype_name (phase : string) : bool :=
  existsb (String.eqb phase)
    ["constructor"; "hasOwnProperty"; "isPrototypeOf";
     "propertyIsEnumerable"; "toLocaleString"; "toString"; "valueOf";
     "__defineGetter__"; "__defineSetter__"; "__lookupGetter__";
     "__lookupSetter__"; "__proto__"].

Definition HEARTBEAT_FRAMES (phase : string) : frame_range :=
  if String.eqb phase "PQ" then Range 0 14
  else if String.eqb phase "QRS" then Range 15 30
  else if String.eqb phase "ST" then Range 31 60
  else if prototype_name phase then Inherited
  else Undefined.

Definition TOTAL_FRAMES : Z := 61.

(** A frame number, or the NaN that arithmetic on [undefined] gives. *)
Inductive frame : Type :=
| FrameNumber (f : Z)
| FrameNaN.

(** The frame computed by the phase effect, [None] when the effect
    returns early or finds no interval; reading [frameRange.end] throws
    when [frameRange] is [undefined]. *)
Definition target_frame (mixer : bool) (pqrstIntervals : list PhaseInterval)
  (timeElapsed : R) : result (option frame) :=
  if negb mixer || (length pqrstIntervals =? 0)%nat then Ok None else
  match first_containing pqrstIntervals timeElapsed with
  | None => Ok None
  | Some phase =>
      let phaseProgress := (timeElapsed - entry phase) / duration phase in
      match HEARTBEAT_FRAMES (Worker.phase phase) with
      | Undefined => Throw TypeError
      | Inherited => Ok (Some FrameNaN)
      | Range frame_start frame_end =>
          Ok (Some (FrameNumber
                      (Z.min frame_end
                         (frame_start
                          + Zfloor (IZR (frame_end - frame_start)
                                    * phaseProgress)))))
      end
  end.

(** [setExactFrame]: the new value of [currentFrame]; both comparisons
    of the guard are false on NaN. *)
Definition setExactFrame (mixer : bool) (targetFrame currentFrame : frame)
  : frame :=
  match targetFrame with
  | FrameNaN => if negb mixer then currentFrame else FrameNaN
  | FrameNumber f =>
      if negb mixer || (f <? 0)%Z || (f >? TOTAL_FRAMES)%Z
      then currentFrame
      else FrameNumber f
  end.

End HeartModel.

(** ** ReverseECG: the queued waveform and the signal buffer *)

Module ReverseECG.
Import JS Generator.
Local Open Scope R_scope.

Definition POINTS_ON_SCREEN : nat := 800.
Definition SAMPLE_RATE : R := 300.

(** [Array.from({ length }, (_, i) => ...)] *)
Definition generateSpike (length : nat) (height : R) : list R :=
  map (fun i =>
         let t := INR i / (INR length - 1) in
         height * exp (-60 * (t - 0.5) ^ 2))
      (seq 0 length).

Definition generateDip (length : nat) (depth : R) : list R :=
  map (fun i =>
         let t := INR i / (INR length - 1) in
         - depth * exp (-60 * (t - 0.5) ^ 2))
      (seq 0 length).

Definition pWave : list R := generateSpike 30 0.3.
Definition qDip : list R := generateDip 10 0.2.
Definition rSpike : list R := generateSpike 20 1.0.
Definition sDip : list R := generateDip 10 0.3.
Definition tWave : list R := generateSpike 40 0.5.

(** [Array(Math.max(0, len)).fill(0)] *)
Definition blank (len : Z) : list R := repeat 0 (Z.to_nat (Z.max 0 len)).

(** [injectQRSComplex]: the wave queue after the eight [enqueue] calls. *)
Definition injectQRSComplex (waveQueue : list R) : list R :=
  let enqueue (queue arr : list R) := queue ++ arr in
  let delayBeforeQ := Math_round (300 * 0.2)%Q in
  let delayBeforeR := Math_round (300 * 0.01)%Q in
  let delayAfterS := Math_round (300 * 0.01)%Q in
  let q := enqueue waveQueue (blank delayBeforeQ) in
  let q := enqueue q pWave in
  let q := enqueue q (blank (Z.max 0 (delayBeforeR - Z.of_nat (length pWave)))) in
  let q := enqueue q qDip in
  let q := enqueue q rSpike in
  let q := enqueue q sDip in
  let q := enqueue q (blank delayAfterS) in
  enqueue q tWave.

(** The refs read and written by [update]. *)
Record state : Type :=
  { simTime : R; lastUpdateTime : R;
    waveQueue : list R; signalBuffer : list R }.

(** The loop [for (let i = 0; i < samplesToAdd; i++)]: [fuel] iterations
    from [i] on; [random i] is what [Math.random()] returns in
    iteration [i]. *)
Fixpoint push_samples (random : nat -> R) (time : R) (fuel i : nat)
  (queue buffer : list R) : list R * list R :=
  match fuel with
  | O => (queue, buffer)
  | S fuel' =>
      let next := match queue with x :: _ => x | [] => 0 end in
      let queue' := match queue with _ :: rest => rest | [] => [] end in
      let noise := random i * 0.03 - 0.015 in
      let baseline := 0.03 * sin (2 * PI * time / 1000 * 0.5) in
      push_samples random time fuel' (S i) queue'
        (buffer ++ [next + noise + baseline])
  end.

(** [arr.slice(-n)]: the last [n] elements, all of them when there are
    fewer. *)
Definition slice_last (n : nat) (arr : list R) : list R :=
  skipn (length arr - n) arr.

(** One animation frame at the timestamp [time] (milliseconds). *)
Definition update (random : nat -> R) (speedMultiplier time : R) (s : state)
  : state :=
  let dt := (time - lastUpdateTime s) / 1000 in
  let simTime1 := simTime s + dt * speedMultiplier in
  let samplesToAdd := Zfloor (simTime1 * SAMPLE_RATE) in
  let simTime2 := simTime1 - IZR samplesToAdd / SAMPLE_RATE in
  let '(queue, buffer) :=
    push_samples random time (Z.to_nat samplesToAdd) 0
      (waveQueue s) (signalBuffer s) in
  {| simTime := simTime2; lastUpdateTime := time;
     waveQueue := queue;
     signalBuffer := slice_last POINTS_ON_SCREEN buffer |}.

(** What happens to the component: an animation frame, with its random
    source, speed and timestamp, or the phase turning to QRS. *)
Inductive event : Type :=
| Frame (random : nat -> R) (speedMultiplier time : R)
| QrsPhase.

Definition step (s : state) (e : event) : state :=
  match e with
  | Frame random speedMultiplier time => update random speedMultiplier time s
  | QrsPhase =>
      {| simTime := simTime s; lastUpdateTime := lastUpdateTime s;
         waveQueue := injectQRSComplex (waveQueue s);
         signalBuffer := signalBuffer s |}
  end.

(** The refs when the component mounts; [now] is [performance.now()]. *)
Definition initial (now : R) : state :=
  {| simTime := 0; lastUpdateTime := now; waveQueue := [];
     signalBuffer := repeat 0 POINTS_ON_SCREEN |}.

(** [Math.random()] returns a number of [[0, 1)]. *)
Definition fair (e : event) : Prop :=
  match e with
  | Frame random _ _ => forall i, 0 <= random i < 1
  | QrsPhase => True
  end.

(** The range of the queued samples, and of the samples of the buffer. *)
Definition queue_range (v : R) : Prop := -0.3 <= v <= 1.
Definition buffer_range (v : R) : Prop := -0.345 <= v <= 1.045.

(** The queued complex: the samples that one [injectQRSComplex] adds. *)
Definition complex : list R := injectQRSComplex [].

End ReverseECG.

(** ** ECGVisualization: the chart window *)

Module Chart.
Import JS Generator Worker.
Local Open Scope R_scope.

Definition POINTS : Z := 800.
Definition SAMPLING_RATE : R := 300.

(** An index argument of [slice], made absolute. *)
Definition relative_index (k : Z) (len : nat) : nat :=
  if (k <? 0)%Z then Z.to_nat (Z.max (Z.of_nat len + k) 0)
  else Z.to_nat (Z.min k (Z.of_nat len)).

(** [arr.slice(start, end)] *)
Definition slice {A} (start end_ : Z) (arr : list A) : list A :=
  let from := relative_index start (length arr) in
  let to := relative_index end_ (length arr) in
  firstn (to - from) (skipn from arr).

(** [updateECG] on a frame that passes the throttle: the new data of the
    first dataset, [None] when the chart is left as it is. *)
Definition updateECG (ecgData : list SamplePoint) (timeElapsed : R)
  : option (list R) :=
  if (length ecgData =? 0)%nat then None else
  let sampleIdx :=
    Z.min (Zfloor (timeElapsed * SAMPLING_RATE))
          (Z.of_nat (length ecgData) - 1) in
  let windowStart := Z.max 0 (sampleIdx - POINTS) in
  let displayData := map value (slice windowStart sampleIdx ecgData) in
  if (0 <? length displayData)%nat then
    Some (repeat 0
            (Z.to_nat (Z.max 0 (POINTS - Z.of_nat (length displayData))))
          ++ displayData)
  else None.

End Chart.

(** ** Elements that are not records *)

Module Rhythm.
Import JS Estimator.
Local Open Scope Q_scope.

Definition nullish (v : jsval) : Prop := v = VNull \/ v = VUndefined.

End Rhythm.

(** ** Properties of the estimator *)

Section EstimatorFacts.
Import JS Estimator.

Lemma Qltb_lt (x y : Q) : Qltb x y = true <-> x < y.
Proof.
  unfold Qltb. rewrite negb_true_iff.
  destruct (Qle_bool y x) eqn:E.
  - apply Qle_bool_iff in E. split; [discriminate | intro; lra].
  - split; [intros _ | reflexivity].
    apply Qnot_le_lt. intro H. apply Qle_bool_iff in H. congruence.
Qed.

Lemma plausible_in_range (rr : Q) : plausible rr = true <-> in_range rr.
Proof.
  unfold plausible, in_range.
  rewrite andb_true_iff, !Qltb_lt. reflexivity.
Qed.

(** The callback never throws on a readable element, and computes
    [qualifies]. *)
Lemma is_qrs_event_readable (v : jsval) :
  readable v -> is_qrs_event v = Ok (qualifies v).
Proof.
  intros [Hnull Hundef].
  unfold is_qrs_event, qualifies, has_qrs_phase, field.
  destruct v; try congruence; cbn [get_prop bind]; try reflexivity.
  destruct (strict_eq_string (lookup "phase" props) "QRS"); cbn [andb];
    [ | reflexivity ].
  destruct (lookup "entry" props); cbn; try reflexivity;
    destruct (lookup "duration" props); reflexivity.
Qed.

Lemma filter_readable (l : list jsval) :
  Forall readable l -> JS.filter is_qrs_event l = Ok (qrs_events l).
Proof.
  induction 1 as [ | v l Hv _ IH ]; [ reflexivity | ].
  cbn [JS.filter]. rewrite (is_qrs_event_readable v Hv), IH.
  unfold qrs_events. cbn [bind List.filter].
  destruct (qualifies v); reflexivity.
Qed.

(** An event that passed the filter has a numeric [entry]. *)
Lemma filter_entry_number (v : jsval) :
  qualifies v = true -> field v "entry" = VNumber (entry_of v).
Proof.
  unfold qualifies, entry_of, field.
  rewrite !andb_true_iff. intros [[_ He] _].
  destruct (get_prop v "entry") as [ x | ]; [ | discriminate ].
  destruct x; try discriminate. reflexivity.
Qed.

(** The loop, started at [i] with [prefix] behind it, folds [rr_step]
    over the differences of the entries from [qrsEvents[i-1]] on. *)
Lemma rr_loop_fold (rest prefix : list jsval) (a : jsval) (acc : Q * nat) :
  rr_loop (prefix ++ a :: rest) (length rest) (S (length prefix)) acc
  = fold_left rr_step (rr_intervals (map entry_of (a :: rest))) acc.
Proof.
  revert prefix a acc.
  induction rest as [ | b rest IH ]; intros prefix a acc; [ reflexivity | ].
  cbn [length rr_loop].
  replace (S (length prefix) - 1)%nat with (length prefix) by lia.
  rewrite (app_nth2 prefix (a :: b :: rest) VUndefined) by lia.
  replace (S (length prefix) - length prefix)%nat with 1%nat by lia.
  rewrite (app_nth2 prefix (a :: b :: rest) VUndefined) by lia.
  rewrite Nat.sub_diag. cbn [nth].
  destruct acc as [totalRR validRRCount].
  change (prefix ++ a :: b :: rest) with (prefix ++ [a] ++ b :: rest).
  rewrite app_assoc.
  replace (S (S (length prefix))) with (S (length (prefix ++ [a])))
    by (rewrite length_app; cbn; lia).
  rewrite IH. cbn [map rr_intervals fold_left].
  unfold rr_step at 2. cbn [fst snd]. reflexivity.
Qed.

Lemma fold_rr_step (rrs : list Q) (t : Q) (c : nat) :
  fold_left rr_step rrs (t, c)
  = (fold_left Qplus (surviving rrs) t, (c + length (surviving rrs))%nat).
Proof.
  revert t c. induction rrs as [ | rr rrs IH ]; intros t c.
  - cbn. f_equal. lia.
  - cbn [fold_left surviving List.filter]. unfold rr_step at 2. cbn [fst snd].
    destruct (plausible rr).
    + rewrite IH. cbn [fold_left length]. f_equal. unfold surviving. lia.
    + apply IH.
Qed.

Lemma rr_loop_spec (q : list jsval) :
  rr_loop q (length q - 1) 1 (0, O)
  = (total (surviving (rr_intervals (map entry_of q))),
     length (surviving (rr_intervals (map entry_of q)))).
Proof.
  destruct q as [ | a rest ]; [ reflexivity | ].
  replace (length (a :: rest) - 1)%nat with (length rest) by (cbn; lia).
  exact (eq_trans (rr_loop_fold rest [] a (0, O)) (fold_rr_step _ 0 O)).
Qed.

(** On readable input the code computes the estimator of the
    specification. *)
Lemma calculateStableBPM_spec (intervals : list jsval) :
  Forall readable intervals ->
  calculateStableBPM intervals = bpm_of_entries (qrs_entries intervals).
Proof.
  intro Hr. unfold calculateStableBPM, bpm_of_entries, qrs_entries.
  rewrite (filter_readable _ Hr). cbn [bind].
  rewrite length_map.
  destruct (length (qrs_events intervals) <? 2)%nat; [ reflexivity | ].
  rewrite rr_loop_spec.
  destruct (length (surviving (rr_intervals (map entry_of (qrs_events intervals))))
            =? 0)%nat; reflexivity.
Qed.

End EstimatorFacts.

(** ** The estimator on its input domain *)

Section EstimatorBounds.
Import JS Estimator.
Local Open Scope Q_scope.

Lemma surviving_in_range (rrs : list Q) : Forall in_range (surviving rrs).
Proof.
  apply Forall_forall. intros rr Hin.
  apply filter_In in Hin. apply plausible_in_range, Hin.
Qed.

Lemma surviving_exists (rrs : list Q) :
  Exists in_range rrs <-> (length (surviving rrs) =? 0)%nat = false.
Proof.
  rewrite Nat.eqb_neq. unfold surviving. split.
  - intros H Hlen. apply Exists_exists in H. destruct H as [rr [Hin Hr]].
    apply length_zero_iff_nil in Hlen.
    assert (Hs : In rr (List.filter plausible rrs))
      by (apply filter_In; split; [ exact Hin | apply plausible_in_range, Hr ]).
    rewrite Hlen in Hs. exact Hs.
  - intro Hlen. destruct (List.filter plausible rrs) as [ | rr rest ] eqn:E;
      [ contradiction Hlen; reflexivity | ].
    assert (Hs : In rr (List.filter plausible rrs)) by (rewrite E; left; reflexivity).
    apply filter_In in Hs. apply Exists_exists. exists rr.
    split; [ apply Hs | apply plausible_in_range, Hs ].
Qed.

Lemma surviving_none (rrs : list Q) :
  Forall (fun rr => ~ in_range rr) rrs
  <-> (length (surviving rrs) =? 0)%nat = true.
Proof.
  destruct (length (surviving rrs) =? 0)%nat eqn:E.
  - split; [ reflexivity | intros _ ].
    apply Forall_forall. intros rr Hin Hr.
    assert (Hex : Exists in_range rrs) by (apply Exists_exists; eauto).
    apply surviving_exists in Hex. congruence.
  - split; [ | discriminate ]. intro Hall.
    apply surviving_exists in E. apply Exists_exists in E.
    destruct E as [rr [Hin Hr]].
    rewrite Forall_forall in Hall. exfalso. exact (Hall rr Hin Hr).
Qed.

Lemma inject_succ (n : nat) :
  inject_Z (Z.of_nat (S n)) == inject_Z (Z.of_nat n) + 1.
Proof. rewrite Nat2Z.inj_succ. unfold Z.succ. rewrite inject_Z_plus. reflexivity. Qed.

(** A sum of plausible intervals lies between 0.3 and 2.0 times their
    number. *)
Lemma fold_sum_bounds (l : list Q) :
  Forall in_range l ->
  forall t,
    t + (3 # 10) * inject_Z (Z.of_nat (length l)) <= fold_left Qplus l t
    /\ fold_left Qplus l t <= t + 2 * inject_Z (Z.of_nat (length l)).
Proof.
  induction 1 as [ | rr l [Hlo Hhi] _ IH ]; intro t.
  - cbn [fold_left length Z.of_nat]. change (inject_Z 0) with 0. split; lra.
  - cbn [fold_left]. destruct (IH (t + rr)) as [IHlo IHhi].
    pose proof (inject_succ (length l)) as Hs. cbn [length].
    split; lra.
Qed.

Lemma average_in_range (l : list Q) :
  Forall in_range l -> l <> [] -> in_range (average l).
Proof.
  intros Hall Hne. destruct l as [ | rr l ]; [ congruence | ].
  inversion Hall as [ | ? ? [Hlo Hhi] Hrest ]; subst.
  unfold average, total. cbn [fold_left].
  destruct (fold_sum_bounds l Hrest (0 + rr)) as [Blo Bhi].
  pose proof (inject_succ (length l)) as Hs. cbn [length].
  assert (Hpos : 0 <= inject_Z (Z.of_nat (length l))).
  { change 0 with (inject_Z 0). rewrite <- Zle_Qle. lia. }
  split.
  - apply Qlt_shift_div_l; lra.
  - apply Qlt_shift_div_r; lra.
Qed.

(** A plausible average interval gives a rounded rate between 30 and
    200. *)
Lemma round_rate_bounds (avg : Q) :
  in_range avg -> (30 <= Math_round (60 / avg) <= 200)%Z.
Proof.
  intros [Hlo Hhi]. unfold Math_round.
  assert (H30 : 30 < 60 / avg) by (apply Qlt_shift_div_l; lra).
  assert (H200 : 60 / avg < 200) by (apply Qlt_shift_div_r; lra).
  split.
  - change 30%Z with (Qfloor (inject_Z 30)). apply Qfloor_resp_le.
    change (inject_Z 30) with 30. lra.
  - change 200%Z with (Qfloor (401 # 2)). apply Qfloor_resp_le. lra.
Qed.

Lemma rate_bounds (entries : list Q) :
  Exists in_range (rr_intervals entries) -> (30 <= rate entries <= 200)%Z.
Proof.
  intro Hex. apply round_rate_bounds, average_in_range.
  - apply surviving_in_range.
  - apply surviving_exists in Hex. intro E. rewrite E in Hex. discriminate.
Qed.

Lemma qrs_entries_length (intervals : list jsval) :
  length (qrs_entries intervals) = length (qrs_events intervals).
Proof. apply length_map. Qed.

Lemma entry_of_field (v : jsval) : entry_of v = number_of (field v "entry").
Proof.
  unfold entry_of, field.
  destruct (get_prop v "entry") as [ x | ]; reflexivity.
Qed.

(** The qualifying entries are a function of the view of the QRS-labelled
    records. *)
Lemma qrs_entries_view (intervals : list jsval) :
  qrs_entries intervals = entries_of_view (qrs_view intervals).
Proof.
  unfold qrs_entries, qrs_events, entries_of_view, qrs_view.
  induction intervals as [ | v l IH ]; [ reflexivity | ].
  cbn [List.filter]. unfold qualifies at 1.
  destruct (has_qrs_phase v); cbn [andb map List.filter fst snd].
  - destruct (is_number (field v "entry") && is_number (field v "duration"));
      cbn [map]; rewrite IH; [ rewrite entry_of_field | ]; reflexivity.
  - exact IH.
Qed.

End EstimatorBounds.

(** ** The estimator in binary64 *)

Section EstimatorBinary64.
Import JS Estimator Binary64 Estimator64.












(** Runs in which the rounding of the subtraction decides.  The
    difference 2.3 - 0.3 is the double just below 2 and is kept; a rhythm
    shifted by 0.1 s can change its outcome. *)
Example just_below_two_seconds :
  calculateStableBPM
    [interval "QRS" 0.3 0.1; interval "QRS" 2.3 0.1; interval "QRS" 3.3 0.1]
  = Return (of_Z 40).
Proof. vm_compute. reflexivity. Qed.

Example two_seconds_out_of_range :
  calculateStableBPM [interval "QRS" 0.3 0.1; interval "QRS" 2.3 0.1]
  = Throw (OutOfRange (of_Z 30)).
Proof. vm_compute. reflexivity. Qed.

Example sum_of_inexact_differences :
  calculateStableBPM
    [interval "QRS" 0.5 0.1; interval "QRS" 0.8 0.1; interval "QRS" 2.8 0.1]
  = Return (of_Z 52).
Proof. vm_compute. reflexivity. Qed.

Example tie_at_the_origin :
  calculateStableBPM [interval "QRS" 0 0.1; interval "QRS" 0.96 0.1]
  = Return (of_Z 63).
Proof. vm_compute. reflexivity. Qed.

Example tie_lost_after_shift :
  calculateStableBPM [interval "QRS" 0.1 0.1; interval "QRS" 1.06 0.1]
  = Return (of_Z 62).
Proof. vm_compute. reflexivity. Qed.

Example bound_at_the_origin :
  calculateStableBPM [interval "QRS" 0 0.1; interval "QRS" 0.3 0.1]
  = Throw NoValidIntervals.
Proof. vm_compute. reflexivity. Qed.

Example bound_passed_after_shift :
  calculateStableBPM [interval "QRS" 0.1 0.1; interval "QRS" 0.4 0.1]
  = Throw (OutOfRange (of_Z 200)).
Proof. vm_compute. reflexivity. Qed.

End EstimatorBinary64.



(** ** Claims about the estimator *)

Section EstimatorClaims.
Import JS Estimator.
Local Open Scope Q_scope.

(** C2 as stated fails: two QRS events 0.31 s apart have their one RR
    interval in (0.3, 2.0), and the estimator throws, the rate 194 being
    above 180. *)
Lemma C2_counterexample :
  let intervals := [interval "QRS" 0 0.1; interval "QRS" 0.31 0.1] in
  Forall readable intervals
  /\ (2 <= length (qrs_events intervals))%nat
  /\ Exists in_range (rr_intervals (qrs_entries intervals))
  /\ calculateStableBPM intervals = Throw (OutOfRange 194)
  /\ ~ (exists bpm, calculateStableBPM intervals = Ok bpm
                    /\ (40 <= bpm <= 180)%Z).
Proof.
  intro intervals. repeat split.
  - repeat constructor; discriminate.
  - vm_compute. lia.
  - apply Exists_cons_hd. split; reflexivity.
  - intros [bpm [H _]]. vm_compute in H. discriminate.
Qed.

(** C2, amended.  On a sequence of records with at least two QRS events and
    at least one RR interval in (0.3, 2.0), the estimator either returns an
    integer in [40, 180], or throws the out-of-range error, carrying a rate
    in [30, 39] or in [181, 200]; it throws no other error. *)
Theorem C2_bpm_in_range_or_out_of_range (intervals : list jsval) :
  Forall readable intervals ->
  (2 <= length (qrs_events intervals))%nat ->
  Exists in_range (rr_intervals (qrs_entries intervals)) ->
  (exists bpm, calculateStableBPM intervals = Ok bpm /\ (40 <= bpm <= 180)%Z)
  \/ (exists bpm, calculateStableBPM intervals = Throw (OutOfRange bpm)
                  /\ ((30 <= bpm < 40)%Z \/ (180 < bpm <= 200)%Z)).
Proof.
  intros Hr Hlen Hex.
  rewrite (calculateStableBPM_spec _ Hr). unfold bpm_of_entries.
  rewrite qrs_entries_length.
  destruct (Nat.ltb_spec (length (qrs_events intervals)) 2); [ lia | ].
  pose proof (rate_bounds _ Hex) as [Blo Bhi].
  apply surviving_exists in Hex. rewrite Hex.
  destruct (Z.ltb_spec (rate (qrs_entries intervals)) 40); cbn [orb].
  - right. eexists. split; [ reflexivity | lia ].
  - destruct (Z.gtb_spec (rate (qrs_entries intervals)) 180).
    + right. eexists. split; [ reflexivity | lia ].
    + left. eexists. split; [ reflexivity | lia ].
Qed.

Lemma C2_bpm_in_range_or_out_of_range_witness :
  (exists bpm,
     calculateStableBPM [interval "QRS" 0 0.1; interval "QRS" 0.31 0.1]
     = Ok bpm /\ (40 <= bpm <= 180)%Z)
  \/ (exists bpm,
        calculateStableBPM [interval "QRS" 0 0.1; interval "QRS" 0.31 0.1]
        = Throw (OutOfRange bpm)
        /\ ((30 <= bpm < 40)%Z \/ (180 < bpm <= 200)%Z)).
Proof.
  apply (C2_bpm_in_range_or_out_of_range
           [interval "QRS" 0 0.1; interval "QRS" 0.31 0.1]).
  - repeat constructor; discriminate.
  - vm_compute. lia.
  - apply Exists_cons_hd. split; reflexivity.
Defined.

(** C9.  The outcome of calculateStableBPM depends only on the QRS-labelled
    records: two sequences of records whose QRS-labelled records carry the
    same entry and duration fields, in the same order, give the same
    result, be it the returned BPM or the error thrown. *)
Theorem C9_only_qrs_records_matter (intervals1 intervals2 : list jsval) :
  Forall readable intervals1 ->
  Forall readable intervals2 ->
  qrs_view intervals1 = qrs_view intervals2 ->
  calculateStableBPM intervals1 = calculateStableBPM intervals2.
Proof.
  intros H1 H2 Hview.
  rewrite (calculateStableBPM_spec _ H1), (calculateStableBPM_spec _ H2).
  rewrite !qrs_entries_view, Hview. reflexivity.
Qed.

Lemma C9_only_qrs_records_matter_witness :
  calculateStableBPM
    [interval "PQ" 0.3 0.2; interval "QRS" 0 0.1; VString "noise";
     interval "ST" 0.5 0.3; interval "QRS" 0.9 0.1]
  = calculateStableBPM
      [VObject [("phase", VString "QRS"); ("duration", VNumber 0.1);
                ("entry", VNumber 0); ("label", VString "first")];
       interval "T" 7 1; interval "QRS" 0.9 0.1].
Proof.
  apply C9_only_qrs_records_matter.
  - repeat constructor; discriminate.
  - repeat constructor; discriminate.
  - reflexivity.
Defined.

(** The two failing runs listed among the testable properties. *)
Example one_qrs_event :
  calculateStableBPM [interval "PQ" 0 0.2; interval "QRS" 0.2 0.1]
  = Throw InsufficientData.
Proof. reflexivity. Qed.

Example implausible_rr :
  calculateStableBPM [interval "QRS" 0.2 0.05; interval "QRS" 0.3 0.05]
  = Throw NoValidIntervals.
Proof. reflexivity. Qed.

(** A [null] in the array makes the filter callback throw. *)
Example null_element :
  calculateStableBPM [interval "QRS" 0 0.1; VNull; interval "QRS" 0.8 0.1]
  = Throw TypeError.
Proof. reflexivity. Qed.

End EstimatorClaims.

(** ** Properties of the synthetic generator *)

(** Settle the window test [a <= p < b] of the goal both ways, closing the
    branches that contradict the hypotheses. *)
Ltac window p a b lemma :=
  let E := fresh "E" in
  let H := fresh "W" in
  destruct (lemma p a b) as [[E H] | [E [H | H]]];
  rewrite E; clear E; try (exfalso; lra).

Section GeneratorFacts.
Import Generator.
Local Open Scope R_scope.

Lemma Rgeb_true (x y : R) : Rgeb x y = true <-> y <= x.
Proof. unfold Rgeb. destruct (Rle_dec y x); split; auto; discriminate. Qed.

Lemma Rltb_true (x y : R) : Rltb x y = true <-> x < y.
Proof. unfold Rltb. destruct (Rlt_dec x y); split; auto; discriminate. Qed.

Lemma window_true (x a b : R) : Rgeb x a && Rltb x b = true <-> a <= x < b.
Proof. rewrite andb_true_iff, Rgeb_true, Rltb_true. reflexivity. Qed.

Lemma window_false (x a b : R) :
  Rgeb x a && Rltb x b = false <-> ~ (a <= x < b).
Proof.
  rewrite <- window_true. destruct (Rgeb x a && Rltb x b); split;
    congruence || (intro H; exfalso; apply H; reflexivity).
Qed.

Lemma window_cases (x a b : R) :
  (Rgeb x a && Rltb x b = true /\ a <= x < b)
  \/ (Rgeb x a && Rltb x b = false /\ (x < a \/ b <= x)).
Proof.
  unfold Rgeb, Rltb.
  destruct (Rle_dec a x); destruct (Rlt_dec x b); cbn [andb];
    [ left | right | right | right ]; split; try reflexivity; lra.
Qed.

(** The loop appends one [sample] per index. *)
Lemma ecg_loop_spec (random : nat -> R) (samplingRate samplesPerBeat : R)
  (fuel i : nat) (data : list SamplePoint) :
  ecg_loop random samplingRate samplesPerBeat fuel i data
  = data ++ map (sample random samplingRate samplesPerBeat) (seq i fuel).
Proof.
  revert i data. induction fuel as [ | fuel IH ]; intros i data.
  - cbn. rewrite app_nil_r. reflexivity.
  - cbn [ecg_loop seq map]. rewrite IH, <- app_assoc. reflexivity.
Qed.

Lemma generate_spec (random : nat -> R) (length : nat) (samplingRate : R)
  (heartRate : option R) :
  generateRealisticECG random length samplingRate heartRate
  = map (sample random samplingRate (beat samplingRate heartRate))
        (seq 0 length).
Proof. unfold generateRealisticECG. rewrite ecg_loop_spec. reflexivity. Qed.

Lemma generate_length (random : nat -> R) (length : nat) (samplingRate : R)
  (heartRate : option R) :
  List.length (generateRealisticECG random length samplingRate heartRate)
  = length.
Proof. rewrite generate_spec, length_map, length_seq. reflexivity. Qed.

Lemma generate_nth (random : nat -> R) (length : nat) (samplingRate : R)
  (heartRate : option R) (i : nat) (d : SamplePoint) :
  (i < length)%nat ->
  nth i (generateRealisticECG random length samplingRate heartRate) d
  = sample random samplingRate (beat samplingRate heartRate) i.
Proof.
  intro Hi. rewrite generate_spec.
  rewrite (nth_indep _ d (sample random samplingRate
                            (beat samplingRate heartRate) 0%nat))
    by (rewrite length_map, length_seq; exact Hi).
  rewrite map_nth, seq_nth by exact Hi. reflexivity.
Qed.

(** The remainder of a non-negative number by a positive one. *)
Lemma js_rem_bounds (x y : R) : 0 <= x -> 0 < y -> 0 <= js_rem x y < y.
Proof.
  intros Hx Hy. unfold js_rem, Rtrunc.
  assert (Hq : 0 <= x / y)
    by (apply Rmult_le_pos; [ exact Hx | left; apply Rinv_0_lt_compat, Hy ]).
  destruct (Rle_dec 0 (x / y)) as [ _ | Hn ]; [ | contradiction ].
  destruct (Zfloor_bound (x / y)) as [Hlo Hhi].
  assert (Hxy : x = y * (x / y)) by (field; lra).
  split; nra.
Qed.

Lemma posInBeat_bounds (samplesPerBeat : R) (i : nat) :
  0 < samplesPerBeat -> 0 <= posInBeat samplesPerBeat i < 1.
Proof.
  intro Hs. unfold posInBeat.
  destruct (js_rem_bounds (INR i) samplesPerBeat (pos_INR i) Hs) as [Hlo Hhi].
  split.
  - apply Rmult_le_pos; [ exact Hlo | left; apply Rinv_0_lt_compat, Hs ].
  - apply Rmult_lt_reg_r with samplesPerBeat; [ exact Hs | ].
    unfold Rdiv. rewrite Rmult_assoc, Rinv_l by lra. lra.
Qed.

(** No value of the waveform exceeds the amplitude of the R wave. *)
Lemma wave_bounds (p : R) : -1.5 <= wave p <= 1.5.
Proof.
  unfold wave.
  pose proof (SIN_bound ((p - 0.1) * PI * 10)).
  pose proof (SIN_bound ((p - 0.2) * PI * 20)).
  pose proof (SIN_bound ((p - 0.22) * PI * 16.67)).
  pose proof (SIN_bound ((p - 0.4) * PI * 5)).
  destruct (Rgeb p 0.1 && Rltb p 0.2); [ lra | ].
  destruct (Rgeb p 0.2 && Rltb p 0.3);
    [ destruct (Rgeb p 0.22 && Rltb p 0.28); lra | ].
  destruct (Rgeb p 0.4 && Rltb p 0.6); lra.
Qed.

(** [Math.random()] returns a number in [[0, 1)]: the noise stays within
    0.025 of zero. *)
Lemma noise_bounds (random : nat -> R) (i : nat) :
  0 <= random i < 1 -> -0.025 <= noise random i < 0.025.
Proof. intro H. unfold noise. lra. Qed.

End GeneratorFacts.

Section WaveShape.
Import Generator.
Local Open Scope R_scope.

(** The waveform of the code, window by window. *)
Lemma wave_piecewise (p : R) :
  (0.1 <= p < 0.2 -> wave p = 0.25 * sin ((p - 0.1) * PI * 10))
  /\ (0.2 <= p < 0.22 \/ 0.28 <= p < 0.3 ->
      wave p = -0.2 * sin ((p - 0.2) * PI * 20))
  /\ (0.22 <= p < 0.28 -> wave p = 1.5 * sin ((p - 0.22) * PI * 16.67))
  /\ (0.4 <= p < 0.6 -> wave p = 0.3 * sin ((p - 0.4) * PI * 5))
  /\ (p < 0.1 \/ 0.3 <= p < 0.4 \/ 0.6 <= p -> wave p = 0).
Proof.
  unfold wave. repeat split; intro Hp.
  - window p 0.1 0.2 window_cases. reflexivity.
  - window p 0.1 0.2 window_cases; window p 0.2 0.3 window_cases;
      window p 0.22 0.28 window_cases; reflexivity.
  - window p 0.1 0.2 window_cases; window p 0.2 0.3 window_cases;
      window p 0.22 0.28 window_cases; reflexivity.
  - window p 0.1 0.2 window_cases; window p 0.2 0.3 window_cases;
      window p 0.4 0.6 window_cases; reflexivity.
  - window p 0.1 0.2 window_cases; window p 0.2 0.3 window_cases;
      window p 0.4 0.6 window_cases; reflexivity.
Qed.

(** The P and T waves of the code are half-sines over their windows. *)
Lemma half_sine_P (p : R) :
  0.25 * sin ((p - 0.1) * PI * 10) = half_sine 0.25 0.10 0.20 p.
Proof. unfold half_sine. apply f_equal, f_equal. lra. Qed.

Lemma half_sine_T (p : R) :
  0.3 * sin ((p - 0.4) * PI * 5) = half_sine 0.3 0.40 0.60 p.
Proof. unfold half_sine. apply f_equal, f_equal. lra. Qed.

(** Below one beat the position is the index over the beat length. *)
Lemma posInBeat_first_beat (samplesPerBeat : R) (i : nat) :
  INR i < samplesPerBeat -> posInBeat samplesPerBeat i = INR i / samplesPerBeat.
Proof.
  intro Hi. pose proof (pos_INR i) as Hpos.
  unfold posInBeat, js_rem, Rtrunc.
  assert (Hs : 0 < samplesPerBeat) by lra.
  assert (Hq : 0 <= INR i / samplesPerBeat)
    by (apply Rmult_le_pos; [ exact Hpos | left; apply Rinv_0_lt_compat, Hs ]).
  assert (Hq1 : INR i / samplesPerBeat < 1).
  { apply Rmult_lt_reg_r with samplesPerBeat; [ exact Hs | ].
    unfold Rdiv. rewrite Rmult_assoc, Rinv_l by lra. lra. }
  destruct (Rle_dec 0 (INR i / samplesPerBeat)); [ | contradiction ].
  rewrite (Zfloor_eq 0 (INR i / samplesPerBeat)) by lra.
  f_equal. lra.
Qed.

End WaveShape.

(** ** Claims about the synthetic generator *)

Section GeneratorClaims.
Import Generator.
Local Open Scope R_scope.

(** C3 as stated fails on the QRS window.  At posInBeat = 0.29 (sample 29
    of a beat of 100 samples) the code's Q wave is -0.2 sin(1.8 pi) > 0,
    where a half-sine of amplitude -0.2 over [0.20, 0.30) is
    -0.2 sin(0.9 pi) < 0; at posInBeat = 0.27999 the code's R wave is
    1.5 sin(16.67 * 0.05999 pi) < 0, where a half-sine of amplitude 1.5
    over [0.22, 0.28) is positive. *)
Lemma C3_counterexample :
  let random := fun _ : nat => 0.5 in
  let d := {| time := 0; value := 0 |} in
  noise_free random 29
    (nth 29 (generateRealisticECG random 100 100 (Some 60)) d)
  <> spec_wave (posInBeat (60 / 60 * 100) 29)
  /\ noise_free random 1
       (nth 1 (generateRealisticECG random 2 (100000 / 27999) (Some 60)) d)
     <> spec_wave (posInBeat (60 / 60 * (100000 / 27999)) 1).
Proof.
  intros random d. pose proof PI_RGT_0 as Hpi. split.
  - rewrite generate_nth by lia.
    unfold noise_free, sample, beat. cbn [value].
    rewrite posInBeat_first_beat by (simpl; lra).
    replace (INR 29 / (60 / 60 * 100)) with 0.29 by (simpl; lra).
    destruct (wave_piecewise 0.29) as (_ & Hq & _).
    rewrite Hq by lra. unfold spec_wave.
    window 0.29 0.10 0.20 window_cases. window 0.29 0.20 0.30 window_cases.
    window 0.29 0.22 0.28 window_cases. unfold half_sine.
    assert (Hcode : sin ((0.29 - 0.2) * PI * 20) < 0)
      by (apply sin_lt_0; lra).
    assert (Hspec : 0 < sin (PI * (0.29 - 0.20) / (0.30 - 0.20)))
      by (apply sin_gt_0; lra).
    lra.
  - rewrite generate_nth by lia.
    unfold noise_free, sample, beat. cbn [value].
    rewrite posInBeat_first_beat by (simpl; lra).
    replace (INR 1 / (60 / 60 * (100000 / 27999))) with 0.27999
      by (simpl; lra).
    destruct (wave_piecewise 0.27999) as (_ & _ & Hr & _).
    rewrite Hr by lra. unfold spec_wave.
    window 0.27999 0.10 0.20 window_cases.
    window 0.27999 0.20 0.30 window_cases.
    window 0.27999 0.22 0.28 window_cases. unfold half_sine.
    assert (Hcode : sin ((0.27999 - 0.22) * PI * 16.67) < 0)
      by (apply sin_lt_0; lra).
    assert (Hspec : 0 < sin (PI * (0.27999 - 0.22) / (0.28 - 0.22)))
      by (apply sin_gt_0; lra).
    lra.
Qed.

(** C3, amended.  For a positive sampling rate and heart rate and every
    sample index i < N, posInBeat lies in [0, 1) and the noise-free value
    of sample i is: the half-sine of amplitude 0.25 on [0.10, 0.20); on
    [0.20, 0.22) and [0.28, 0.30) the sine -0.2 sin(20 pi (p - 0.2)), a
    full period over the QRS window; on [0.22, 0.28) the R wave
    1.5 sin(16.67 pi (p - 0.22)); the half-sine of amplitude 0.3 on
    [0.40, 0.60); and 0 elsewhere. *)
Theorem C3_waveform_of_code (random : nat -> R) (N : nat)
  (samplingRate heartRate : R) (i : nat) (d : SamplePoint) :
  0 < samplingRate -> 0 < heartRate -> (i < N)%nat ->
  let p := posInBeat (60 / heartRate * samplingRate) i in
  let v := noise_free random i
             (nth i (generateRealisticECG random N samplingRate
                       (Some heartRate)) d) in
  0 <= p < 1
  /\ (0.10 <= p < 0.20 -> v = half_sine 0.25 0.10 0.20 p)
  /\ (0.20 <= p < 0.22 \/ 0.28 <= p < 0.30 ->
      v = -0.2 * sin ((p - 0.2) * PI * 20))
  /\ (0.22 <= p < 0.28 -> v = 1.5 * sin ((p - 0.22) * PI * 16.67))
  /\ (0.40 <= p < 0.60 -> v = half_sine 0.3 0.40 0.60 p)
  /\ (p < 0.10 \/ 0.30 <= p < 0.40 \/ 0.60 <= p -> v = 0).
Proof.
  intros Hrate Hheart Hi p v.
  assert (Hv : v = wave p).
  { unfold v, noise_free. rewrite generate_nth by exact Hi.
    unfold sample, beat. cbn [value]. fold p. ring. }
  rewrite Hv. clear Hv v.
  assert (Hbeat : 0 < 60 / heartRate * samplingRate).
  { apply Rmult_lt_0_compat; [ | exact Hrate ].
    apply Rdiv_lt_0_compat; lra. }
  split; [ apply posInBeat_bounds, Hbeat | ].
  destruct (wave_piecewise p) as (HP & HQ & HR & HT & H0).
  rewrite <- half_sine_P, <- half_sine_T.
  split; [ intro Hp; apply HP; lra | ].
  split; [ intro Hp; apply HQ; lra | ].
  split; [ intro Hp; apply HR; lra | ].
  split; [ intro Hp; apply HT; lra | ].
  intro Hp. apply H0. lra.
Qed.

Lemma C3_waveform_of_code_witness :
  let random := fun _ : nat => 0.5 in
  let d := {| time := 0; value := 0 |} in
  let p := posInBeat (60 / 60 * 100) 29 in
  let v := noise_free random 29
             (nth 29 (generateRealisticECG random 100 100 (Some 60)) d) in
  0 <= p < 1
  /\ (0.10 <= p < 0.20 -> v = half_sine 0.25 0.10 0.20 p)
  /\ (0.20 <= p < 0.22 \/ 0.28 <= p < 0.30 ->
      v = -0.2 * sin ((p - 0.2) * PI * 20))
  /\ (0.22 <= p < 0.28 -> v = 1.5 * sin ((p - 0.22) * PI * 16.67))
  /\ (0.40 <= p < 0.60 -> v = half_sine 0.3 0.40 0.60 p)
  /\ (p < 0.10 \/ 0.30 <= p < 0.40 \/ 0.60 <= p -> v = 0).
Proof.
  intros random d.
  apply (C3_waveform_of_code random 100 100 60 29 d); [ lra | lra | lia ].
Defined.

(** C5.  For every sample count N, sampling rate R > 0 and heart rate
    H > 0, generateRealisticECG(N, R, H) returns exactly N sample points,
    the i-th of which has time i / R, for every i in [0, N). *)
Theorem C5_length_and_times (random : nat -> R) (N : nat)
  (samplingRate heartRate : R) (d : SamplePoint) :
  0 < samplingRate -> 0 < heartRate ->
  length (generateRealisticECG random N samplingRate (Some heartRate)) = N
  /\ forall i, (i < N)%nat ->
       time (nth i (generateRealisticECG random N samplingRate
                      (Some heartRate)) d)
       = INR i / samplingRate.
Proof.
  intros _ _. split; [ apply generate_length | ].
  intros i Hi. rewrite generate_nth by exact Hi. reflexivity.
Qed.

Lemma C5_length_and_times_witness :
  length (generateRealisticECG (fun _ => 0.5) 3 300 (Some 72)) = 3%nat
  /\ forall i, (i < 3)%nat ->
       time (nth i (generateRealisticECG (fun _ => 0.5) 3 300 (Some 72))
               {| time := 0; value := 0 |})
       = INR i / 300.
Proof.
  apply (C5_length_and_times (fun _ => 0.5) 3 300 72); lra.
Defined.

(** C7.  For N = 1000, R = 300, H = 72, when every noise contribution lies
    in [-0.025, 0.025], the output has length exactly 1000, time[i] is
    i / 300 and value[i] lies within [-1.525, 1.775], for every i. *)
Theorem C7_reference_run (random : nat -> R) (d : SamplePoint) :
  (forall i, (i < 1000)%nat -> -0.025 <= noise random i <= 0.025) ->
  let data := generateRealisticECG random 1000 300 (Some 72) in
  length data = 1000%nat
  /\ forall i, (i < 1000)%nat ->
       time (nth i data d) = INR i / 300
       /\ -1.525 <= value (nth i data d) <= 1.775.
Proof.
  intros Hnoise data. split; [ apply generate_length | ].
  intros i Hi. unfold data. rewrite generate_nth by exact Hi.
  split; [ reflexivity | ].
  unfold sample. cbn [value].
  pose proof (wave_bounds (posInBeat (beat 300 (Some 72)) i)).
  pose proof (Hnoise i Hi). lra.
Qed.

Lemma C7_reference_run_witness :
  let data := generateRealisticECG (fun _ => 0.5) 1000 300 (Some 72) in
  length data = 1000%nat
  /\ forall i, (i < 1000)%nat ->
       time (nth i data {| time := 0; value := 0 |}) = INR i / 300
       /\ -1.525 <= value (nth i data {| time := 0; value := 0 |}) <= 1.775.
Proof.
  apply (C7_reference_run (fun _ => 0.5)).
  intros i _. unfold noise. lra.
Defined.



End GeneratorClaims.

(** ** The interval-walking generator *)

Section WorkerClaims.
Import Generator Worker.
Local Open Scope R_scope.

Lemma contains_in_span (interval : PhaseInterval) (t : R) :
  contains interval t = true <-> in_span interval t.
Proof. apply window_true. Qed.

Lemma outside_all (intervals : list PhaseInterval) (t : R) :
  (forall interval, In interval intervals -> ~ in_span interval t) ->
  generateECGPoint intervals t = 0.
Proof.
  induction intervals as [ | interval rest IH ]; intro Hout; [ reflexivity | ].
  cbn [generateECGPoint].
  destruct (contains interval t) eqn:E.
  - apply contains_in_span in E. exfalso.
    exact (Hout interval (or_introl eq_refl) E).
  - apply IH. intros j Hj. apply Hout. right. exact Hj.
Qed.

Lemma first_containing_decides (before after : list PhaseInterval)
  (interval : PhaseInterval) (t : R) :
  (forall j, In j before -> ~ in_span j t) ->
  in_span interval t ->
  generateECGPoint (before ++ interval :: after) t
  = shape (phase interval) ((t - entry interval) / duration interval).
Proof.
  intros Hbefore Hin.
  induction before as [ | j before IH ].
  - cbn [app generateECGPoint].
    apply contains_in_span in Hin. rewrite Hin. reflexivity.
  - cbn [app generateECGPoint].
    destruct (contains j t) eqn:E.
    + apply contains_in_span in E. exfalso.
      exact (Hbefore j (or_introl eq_refl) E).
    + apply IH. intros k Hk. apply Hbefore. right. exact Hk.
Qed.

Lemma shape_other_phase (phase : string) (phaseProgress : R) :
  phase <> "QRS" -> phase <> "PQ" -> phase <> "ST" ->
  shape phase phaseProgress = 0.
Proof.
  intros Hqrs Hpq Hst. unfold shape.
  apply String.eqb_neq in Hqrs, Hpq, Hst.
  rewrite Hqrs, Hpq, Hst. reflexivity.
Qed.

(** C10.  In the interval-walking generator a timestamp that no interval's
    half-open span [entry, entry + duration) contains gives the value 0;
    otherwise the first interval of the list that contains the timestamp
    determines the value, and the value is 0 when the phase label of that
    interval is none of "QRS", "PQ" and "ST". *)
Theorem C10_baseline_outside_known_phases
  (intervals : list PhaseInterval) (t : R) :
  ((forall interval, In interval intervals -> ~ in_span interval t) ->
   generateECGPoint intervals t = 0)
  /\ (forall before interval after,
        intervals = before ++ interval :: after ->
        (forall j, In j before -> ~ in_span j t) ->
        in_span interval t ->
        generateECGPoint intervals t
        = shape (phase interval) ((t - entry interval) / duration interval)
        /\ (phase interval <> "QRS" -> phase interval <> "PQ" ->
            phase interval <> "ST" ->
            generateECGPoint intervals t = 0)).
Proof.
  split; [ apply outside_all | ].
  intros before interval after -> Hbefore Hin.
  pose proof (first_containing_decides before after interval t Hbefore Hin)
    as Hfirst.
  split; [ exact Hfirst | ].
  intros Hqrs Hpq Hst. rewrite Hfirst.
  apply shape_other_phase; assumption.
Qed.

Lemma C10_baseline_outside_known_phases_witness :
  generateECGPoint
    [ {| phase := "QRS"; entry := 0; duration := 0.1 |};
      {| phase := "T"; entry := 0.5; duration := 0.2 |};
      {| phase := "QRS"; entry := 0.55; duration := 0.1 |} ] 0.6
  = 0
  /\ generateECGPoint
       [ {| phase := "QRS"; entry := 0; duration := 0.1 |};
         {| phase := "T"; entry := 0.5; duration := 0.2 |};
         {| phase := "QRS"; entry := 0.55; duration := 0.1 |} ] 0.3
     = 0.
Proof.
  split.
  - refine (proj2 (proj2 (C10_baseline_outside_known_phases _ 0.6)
                     [ {| phase := "QRS"; entry := 0; duration := 0.1 |} ]
                     {| phase := "T"; entry := 0.5; duration := 0.2 |}
                     [ {| phase := "QRS"; entry := 0.55; duration := 0.1 |} ]
                     eq_refl _ _) _ _ _).
    + intros j [<- | []]. unfold in_span. cbn. lra.
    + unfold in_span. cbn. lra.
    + discriminate.
    + discriminate.
    + discriminate.
  - apply (proj1 (C10_baseline_outside_known_phases _ 0.3)).
    intros j [<- | [<- | [<- | []]]]; unfold in_span; cbn; lra.
Defined.

End WorkerClaims.

(** ** The loader *)

Section LoaderClaims.
Import JS Estimator Generator Loader.



(** The other path: with a BPM in hand the loader reports it and generates
    at that rate. *)
Lemma load_success (random : nat -> R) (intervals : list jsval) (bpm : Z)
  (calls : list Z) :
  calculateStableBPM intervals = Ok bpm ->
  loadEcgData random (Ok {| ok := true; json := Ok (VArray intervals) |}) calls
  = (Ok (generateRealisticECG random 1000 SAMPLING_RATE (Some (IZR bpm))),
     calls ++ [bpm]).
Proof.
  intro Hbpm.
  unfold loadEcgData, try_catch, load_body, mbind, await.
  cbn [ok json negb]. rewrite Hbpm. reflexivity.
Qed.

(** Every settled fetch is a failure or leads to a BPM. *)
Lemma load_failure_or_bpm (fetch : result Response) :
  load_failure fetch
  \/ exists intervals bpm,
       fetch = Ok {| ok := true; json := Ok (VArray intervals) |}
       /\ calculateStableBPM intervals = Ok bpm.
Proof.
  destruct fetch as [ [ [ | ] [ v | e ] ] | e ].
  - destruct v as [ | | b | q | s | props | elems ];
      try (left; apply not_an_array; discriminate).
    destruct (calculateStableBPM elems) as [ bpm | e ] eqn:E.
    + right. exists elems, bpm. split; [ reflexivity | exact E ].
    + left. apply (estimation_fails elems e E).
  - left. apply parse_fails.
  - left. apply response_not_ok.
  - left. apply response_not_ok.
  - left. apply fetch_fails.
Qed.

End LoaderClaims.

(** ** Further properties of the estimator *)

Section EstimatorExtras.
Import JS Estimator Rhythm.
Local Open Scope Q_scope.

Lemma readable_or_nullish (v : jsval) : readable v \/ nullish v.
Proof.
  unfold readable, nullish.
  destruct v; try (left; split; discriminate);
    right; [ right | left ]; reflexivity.
Qed.

Lemma is_qrs_event_nullish (v : jsval) :
  nullish v -> is_qrs_event v = Throw TypeError.
Proof. intros [-> | ->]; reflexivity. Qed.

Lemma filter_nullish (l : list jsval) :
  Exists nullish l -> JS.filter is_qrs_event l = Throw TypeError.
Proof.
  induction l as [ | v l IH ]; intro Hex; [ inversion Hex | ].
  cbn [JS.filter].
  destruct (readable_or_nullish v) as [Hr | Hn].
  - rewrite (is_qrs_event_readable v Hr). cbn [bind].
    inversion Hex as [ ? ? Hv | ? ? Hl ]; subst.
    + destruct Hr as [H1 H2]. destruct Hv; contradiction.
    + rewrite (IH Hl). reflexivity.
  - rewrite (is_qrs_event_nullish v Hn). reflexivity.
Qed.

Lemma bpm_of_entries_no_type_error (entries : list Q) :
  bpm_of_entries entries <> Throw TypeError.
Proof.
  unfold bpm_of_entries.
  destruct (length entries <? 2)%nat; [ discriminate | ].
  destruct (length (surviving (rr_intervals entries)) =? 0)%nat;
    [ discriminate | ].
  destruct ((rate entries <? 40) || (rate entries >? 180))%Z; discriminate.
Qed.

Lemma all_readable_or_nullish (l : list jsval) :
  Forall readable l \/ Exists nullish l.
Proof.
  induction l as [ | v l [IH | IH] ].
  - left. constructor.
  - destruct (readable_or_nullish v) as [Hr | Hn].
    + left. constructor; assumption.
    + right. apply Exists_cons_hd, Hn.
  - right. apply Exists_cons_tl, IH.
Qed.

(** X1.  The estimator throws a TypeError exactly when the array holds a
    null (or undefined) element, wherever it stands and whatever the other
    elements are. *)
Theorem estimator_type_error_iff_nullish (intervals : list jsval) :
  calculateStableBPM intervals = Throw TypeError <-> Exists nullish intervals.
Proof.
  split.
  - intro Hthrow.
    destruct (all_readable_or_nullish intervals) as [Hr | Hex];
      [ exfalso | exact Hex ].
    rewrite (calculateStableBPM_spec _ Hr) in Hthrow.
    exact (bpm_of_entries_no_type_error _ Hthrow).
  - intro Hex. unfold calculateStableBPM.
    rewrite (filter_nullish _ Hex). reflexivity.
Qed.

(** Whatever the input, a returned BPM lies in [40, 180]. *)
Lemma estimator_ok_range (intervals : list jsval) (bpm : Z) :
  calculateStableBPM intervals = Ok bpm -> (40 <= bpm <= 180)%Z.
Proof.
  unfold calculateStableBPM.
  destruct (JS.filter is_qrs_event intervals) as [ qrsEvents | e ];
    cbn [bind]; [ | discriminate ].
  destruct (length qrsEvents <? 2)%nat; [ discriminate | ].
  destruct (rr_loop qrsEvents (length qrsEvents - 1) 1 (0, 0%nat))
    as [totalRR validRRCount].
  destruct (validRRCount =? 0)%nat; [ discriminate | ].
  set (b := Math_round (60 / (totalRR / inject_Z (Z.of_nat validRRCount)))).
  destruct (Z.ltb_spec b 40); cbn [orb]; [ discriminate | ].
  destruct (Z.gtb_spec b 180); [ discriminate | ].
  intro Hok. injection Hok as <-. lia.
Qed.

End EstimatorExtras.

(** ** Further properties of the loaders *)

Section LoaderExtras.
Import JS Estimator Generator Loader HeartData.

Lemma fallback_run (random : nat -> R) (fetch : result Response)
  (calls : list Z) :
  load_failure fetch ->
  loadEcgData random fetch calls
  = (Ok (generateRealisticECG random 1000 SAMPLING_RATE (Some 72%R)),
     calls ++ [72%Z]).
Proof.
  intro Hfail.
  unfold loadEcgData, try_catch, load_body, mbind, await, throw.
  destruct Hfail as [ e | body | e | v Hv | intervals e He ];
    cbn [ok json negb]; try reflexivity.
  - destruct v as [ | | b | q | s | props | elems ]; try reflexivity.
    exfalso. exact (Hv elems eq_refl).
  - rewrite He. reflexivity.
Qed.

(** X4.  Whatever the fetch gives, loadEcgData resolves: it calls
    setRealBPM exactly once, with a value in [40, 180] (the estimate or
    the fallback 72), and returns the 1000 samples generated at 360 Hz
    for that heart rate, sample i at time i / 360. *)
Theorem loadEcgData_total (random : nat -> R) (fetch : result Response)
  (calls : list Z) :
  exists bpm : Z,
    (40 <= bpm <= 180)%Z
    /\ loadEcgData random fetch calls
       = (Ok (generateRealisticECG random 1000 360 (Some (IZR bpm))),
          calls ++ [bpm])
    /\ length (generateRealisticECG random 1000 360 (Some (IZR bpm)))
       = 1000%nat
    /\ forall i d, (i < 1000)%nat ->
         time (nth i (generateRealisticECG random 1000 360
                        (Some (IZR bpm))) d)
         = (INR i / 360)%R.
Proof.
  assert (Hshape : forall bpm : Z,
    length (generateRealisticECG random 1000 360 (Some (IZR bpm))) = 1000%nat
    /\ forall i d, (i < 1000)%nat ->
         time (nth i (generateRealisticECG random 1000 360
                        (Some (IZR bpm))) d)
         = (INR i / 360)%R).
  { intro bpm. split; [ apply generate_length | ].
    intros i d Hi. rewrite generate_nth by exact Hi. reflexivity. }
  destruct (load_failure_or_bpm fetch)
    as [Hfail | (intervals & bpm & -> & Hbpm)].
  - exists 72%Z. split; [ lia | ].
    split; [ exact (fallback_run random fetch calls Hfail) | apply Hshape ].
  - exists bpm. split; [ exact (estimator_ok_range _ _ Hbpm) | ].
    split; [ exact (load_success random intervals bpm calls Hbpm)
           | apply Hshape ].
Qed.

(** X5.  loadHeartData never throws.  It returns the parsed array exactly
    when the fetch succeeds with an ok response whose body parses to a
    non-empty array, and null in every other case. *)
Theorem loadHeartData_result (fetch : result Response) :
  (forall elems,
     loadHeartData fetch = Return (VArray elems)
     <-> fetch = Ok {| ok := true; json := Ok (VArray elems) |}
         /\ elems <> [])
  /\ (loadHeartData fetch = Return VNull
      \/ exists elems, loadHeartData fetch = Return (VArray elems)).
Proof.
  unfold loadHeartData, catch, heart_body.
  destruct fetch as [ [ [ | ] [ v | e ] ] | e ]; cbn [ok json negb].
  - destruct v as [ | | b | q | s | props | elems ];
      try (split; [ intro; split; [ discriminate | intros [H _]; discriminate ]
                  | left; reflexivity ]).
    destruct elems as [ | x elems ]; cbn [length Nat.eqb].
    + split; [ | left; reflexivity ].
      intro l. split; [ discriminate | ].
      intros [H Hne]. injection H as <-. contradiction.
    + split; [ | right; eexists; reflexivity ].
      intro l. split.
      * intro H. injection H as <-. split; [ reflexivity | discriminate ].
      * intros [H _]. injection H as <-. reflexivity.
  - split; [ | left; reflexivity ].
    intro l. split; [ discriminate | intros [H _]; discriminate ].
  - split; [ | left; reflexivity ].
    intro l. split; [ discriminate | intros [H _]; discriminate ].
  - split; [ | left; reflexivity ].
    intro l. split; [ discriminate | intros [H _]; discriminate ].
  - split; [ | left; reflexivity ].
    intro l. split; [ discriminate | intros [H _]; discriminate ].
Qed.

(** X6.  The two loaders read the same resource: whenever loadHeartData
    gives null on a fetch outcome, loadEcgData on that outcome reports the
    fallback 72 and returns the samples generated at 72 BPM. *)
Theorem null_heart_data_means_fallback (random : nat -> R)
  (fetch : result Response) (calls : list Z) :
  loadHeartData fetch = Return VNull ->
  loadEcgData random fetch calls
  = (Ok (generateRealisticECG random 1000 SAMPLING_RATE (Some 72%R)),
     calls ++ [72%Z]).
Proof.
  intro Hnull. apply fallback_run.
  unfold loadHeartData, catch, heart_body in Hnull.
  destruct fetch as [ [ [ | ] [ v | e ] ] | e ]; cbn [ok json negb] in Hnull.
  - destruct v as [ | | b | q | s | props | elems ];
      try (apply not_an_array; discriminate).
    destruct elems as [ | x elems ]; cbn [length Nat.eqb] in Hnull;
      [ | discriminate ].
    apply (estimation_fails [] InsufficientData). reflexivity.
  - apply parse_fails.
  - apply response_not_ok.
  - apply response_not_ok.
  - apply fetch_fails.
Qed.

Lemma null_heart_data_means_fallback_witness :
  loadEcgData (fun _ => 0.5%R) (Ok {| ok := true; json := Ok (VArray []) |}) []
  = (Ok (generateRealisticECG (fun _ => 0.5%R) 1000 SAMPLING_RATE (Some 72%R)),
     [72%Z]).
Proof.
  apply (null_heart_data_means_fallback (fun _ => 0.5%R)
           (Ok {| ok := true; json := Ok (VArray []) |}) []).
  reflexivity.
Defined.

End LoaderExtras.

(** ** Further properties of the synthetic generator *)

Section GeneratorExtras.
Import Generator.
Local Open Scope R_scope.

Lemma js_rem_add_period (x y : R) :
  0 <= x -> 0 < y -> js_rem (x + y) y = js_rem x y.
Proof.
  intros Hx Hy. unfold js_rem, Rtrunc.
  assert (Hq : 0 <= x / y)
    by (apply Rmult_le_pos; [ exact Hx | left; apply Rinv_0_lt_compat, Hy ]).
  assert (Hsum : (x + y) / y = x / y + IZR 1) by (field; lra).
  destruct (Rle_dec 0 (x / y)); [ | contradiction ].
  destruct (Rle_dec 0 ((x + y) / y)); [ | lra ].
  rewrite Hsum, Zfloor_addz, plus_IZR. ring.
Qed.

Lemma posInBeat_periodic (k i : nat) :
  (0 < k)%nat -> posInBeat (INR k) (i + k) = posInBeat (INR k) i.
Proof.
  intro Hk. unfold posInBeat. rewrite plus_INR.
  rewrite js_rem_add_period; [ reflexivity | apply pos_INR | ].
  apply lt_0_INR, Hk.
Qed.

(** X7.  When one beat is a whole number k of samples, the noise-free
    waveform is periodic: sample i + k carries the same noise-free value
    as sample i. *)
Theorem waveform_periodic (random : nat -> R) (N : nat)
  (samplingRate heartRate : R) (k i : nat) (d : SamplePoint) :
  (0 < k)%nat ->
  60 / heartRate * samplingRate = INR k ->
  (i + k < N)%nat ->
  noise_free random (i + k)
    (nth (i + k) (generateRealisticECG random N samplingRate
                    (Some heartRate)) d)
  = noise_free random i
      (nth i (generateRealisticECG random N samplingRate (Some heartRate)) d).
Proof.
  intros Hk Hbeat Hi. rewrite !generate_nth by lia.
  unfold noise_free, sample, beat. cbn [value].
  rewrite Hbeat, (posInBeat_periodic k i Hk). ring.
Qed.

Lemma waveform_periodic_witness :
  let random := fun i : nat => INR i / 100 in
  let d := {| time := 0; value := 0 |} in
  noise_free random (3 + 10)
    (nth (3 + 10) (generateRealisticECG random 30 10 (Some 60)) d)
  = noise_free random 3
      (nth 3 (generateRealisticECG random 30 10 (Some 60)) d).
Proof.
  intros random d.
  apply (waveform_periodic random 30 10 60 10 3 d); [ lia | | lia ].
  simpl. lra.
Defined.

(** Just past a half period the sine is still close to zero. *)
Lemma sin_past_PI (x : R) : PI <= x -> x <= PI + 0.1 -> -0.1 <= sin x.
Proof.
  intros Hlo Hhi.
  replace x with ((x - PI) + PI) by ring. rewrite neg_sin.
  destruct (Req_dec (x - PI) 0) as [E | Hne].
  - rewrite E, sin_0. lra.
  - pose proof (sin_lt_x (x - PI)). lra.
Qed.

(** The waveform stays between the depth of the Q wave and the height of
    the R wave. *)
Lemma wave_range (p : R) : -0.2 <= wave p <= 1.5.
Proof.
  pose proof PI_RGT_0 as Hpi. pose proof PI_4 as Hpi4.
  destruct (wave_piecewise p) as (HP & HQ & HR & HT & H0).
  destruct (window_cases p 0.1 0.2) as [[_ W] | [_ W1]].
  { rewrite (HP W).
    pose proof (sin_ge_0 ((p - 0.1) * PI * 10)).
    pose proof (SIN_bound ((p - 0.1) * PI * 10)). nra. }
  destruct (window_cases p 0.22 0.28) as [[_ W] | [_ W2]].
  { rewrite (HR W).
    pose proof (SIN_bound ((p - 0.22) * PI * 16.67)) as Hb.
    destruct (Rle_dec ((p - 0.22) * PI * 16.67) PI) as [Hle | Hgt].
    - pose proof (sin_ge_0 ((p - 0.22) * PI * 16.67)). nra.
    - pose proof (sin_past_PI ((p - 0.22) * PI * 16.67)). nra. }
  destruct (window_cases p 0.2 0.3) as [[_ W] | [_ W3]].
  { rewrite HQ by lra.
    pose proof (SIN_bound ((p - 0.2) * PI * 20)). lra. }
  destruct (window_cases p 0.4 0.6) as [[_ W] | [_ W4]].
  { rewrite (HT W).
    pose proof (sin_ge_0 ((p - 0.4) * PI * 5)).
    pose proof (SIN_bound ((p - 0.4) * PI * 5)). nra. }
  rewrite H0 by lra. lra.
Qed.

(** X8.  For positive rates, every sample of the generator has its
    noise-free value in [-0.2, 1.5]; with Math.random() in [0, 1) the
    value itself lies in [-0.225, 1.525). *)
Theorem generator_value_range (random : nat -> R) (N : nat)
  (samplingRate heartRate : R) (i : nat) (d : SamplePoint) :
  0 < samplingRate -> 0 < heartRate ->
  (i < N)%nat ->
  0 <= random i < 1 ->
  let s := nth i (generateRealisticECG random N samplingRate
                    (Some heartRate)) d in
  -0.2 <= noise_free random i s <= 1.5
  /\ -0.225 <= value s < 1.525.
Proof.
  intros _ _ Hi Hrandom s. unfold s.
  rewrite generate_nth by exact Hi.
  unfold noise_free, sample. cbn [value].
  pose proof (wave_range (posInBeat (beat samplingRate (Some heartRate)) i)).
  pose proof (noise_bounds random i Hrandom). lra.
Qed.

Lemma generator_value_range_witness :
  let random := fun i : nat => INR i / 100 in
  let s := nth 7 (generateRealisticECG random 30 300 (Some 72))
               {| time := 0; value := 0 |} in
  -0.2 <= noise_free random 7 s <= 1.5
  /\ -0.225 <= value s < 1.525.
Proof.
  intro random.
  apply (generator_value_range random 30 300 72 7); [ lra | lra | lia | ].
  unfold random. simpl. lra.
Defined.

End GeneratorExtras.

(** ** Further properties of the chart's generator *)

Section WorkerExtras.
Import JS Generator Worker Phases Chart.
Local Open Scope R_scope.

Lemma Rltb_cases (x y : R) :
  (Rltb x y = true /\ x < y) \/ (Rltb x y = false /\ y <= x).
Proof.
  unfold Rltb. destruct (Rlt_dec x y); [ left | right ]; split;
    try reflexivity; lra.
Qed.

Lemma exp_le_1 (x : R) : x <= 0 -> 0 < exp x <= 1.
Proof.
  intro Hx. split; [ apply exp_pos | ].
  destruct (Req_dec x 0) as [-> | Hne]; [ rewrite exp_0; lra | ].
  rewrite <- exp_0. left. apply exp_increasing. lra.
Qed.

(** Inside an interval every phase shape stays within [-0.4, 1.8]. *)
Lemma shape_range (phase : string) (phaseProgress : R) :
  0 <= phaseProgress < 1 -> -0.4 <= shape phase phaseProgress <= 1.8.
Proof.
  intros [Hlo Hhi]. pose proof PI_RGT_0 as Hpi. unfold shape.
  destruct (String.eqb phase "QRS").
  - destruct (Rltb_cases phaseProgress 0.15) as [[-> H1] | [-> H1]].
    { pose proof (cos_ge_0 (phaseProgress / 0.15 * PI / 2)).
      pose proof (COS_bound (phaseProgress / 0.15 * PI / 2)). nra. }
    destruct (Rltb_cases phaseProgress 0.35) as [[-> H2] | [-> H2]].
    { pose proof (sin_ge_0 ((phaseProgress - 0.15) / 0.2 * PI)).
      pose proof (SIN_bound ((phaseProgress - 0.15) / 0.2 * PI)). nra. }
    destruct (Rltb_cases phaseProgress 0.6) as [[-> H3] | [-> H3]]; lra.
  - destruct (String.eqb phase "PQ").
    { pose proof (SIN_bound (PI * phaseProgress * 2.5)). lra. }
    destruct (String.eqb phase "ST"); [ | lra ].
    destruct (Rltb_cases phaseProgress 0.4) as [[-> H1] | [-> H1]]; [ lra | ].
    pose proof (sin_ge_0 ((phaseProgress - 0.4) / 0.6 * PI)).
    pose proof (SIN_bound ((phaseProgress - 0.4) / 0.6 * PI)).
    pose proof (exp_le_1 (- (phaseProgress - 0.4) / 0.6 * 2)).
    nra.
Qed.

(** A time inside the span of an interval is a fraction in [0, 1) of its
    duration, which is then positive. *)
Lemma progress_in_span (interval : PhaseInterval) (t : R) :
  in_span interval t ->
  0 < duration interval
  /\ 0 <= (t - entry interval) / duration interval < 1.
Proof.
  intros [Hlo Hhi].
  assert (Hd : 0 < duration interval) by lra.
  split; [ exact Hd | ]. split.
  - apply Rmult_le_pos; [ lra | left; apply Rinv_0_lt_compat, Hd ].
  - apply Rmult_lt_reg_r with (duration interval); [ exact Hd | ].
    unfold Rdiv. rewrite Rmult_assoc, Rinv_l by lra. lra.
Qed.

(** X9.  Whatever the intervals and the time, the value computed by
    generateECGPoint lies in [-0.4, 1.8], inside the y axis [-0.8, 2.2] of
    the chart. *)
Theorem chart_point_range (intervals : list PhaseInterval) (t : R) :
  -0.4 <= generateECGPoint intervals t <= 1.8.
Proof.
  induction intervals as [ | interval rest IH ]; cbn [generateECGPoint];
    [ lra | ].
  destruct (contains interval t) eqn:E; [ | exact IH ].
  apply contains_in_span in E.
  apply shape_range, progress_in_span, E.
Qed.

(** The worker and the phase search stop at the same interval. *)
Lemma generateECGPoint_first_containing (intervals : list PhaseInterval)
  (t : R) :
  generateECGPoint intervals t
  = match first_containing intervals t with
    | Some interval =>
        shape (phase interval) ((t - entry interval) / duration interval)
    | None => 0
    end.
Proof.
  induction intervals as [ | interval rest IH ]; [ reflexivity | ].
  cbn [generateECGPoint first_containing].
  destruct (contains interval t); [ reflexivity | exact IH ].
Qed.

Lemma first_containing_in_span (intervals : list PhaseInterval) (t : R)
  (interval : PhaseInterval) :
  first_containing intervals t = Some interval ->
  In interval intervals /\ in_span interval t.
Proof.
  induction intervals as [ | j rest IH ]; [ discriminate | ].
  cbn [first_containing]. destruct (contains j t) eqn:E.
  - intro H. injection H as <-. split; [ left; reflexivity | ].
    apply contains_in_span, E.
  - intro H. destruct (IH H) as [Hin Hspan].
    split; [ right; exact Hin | exact Hspan ].
Qed.

End WorkerExtras.

(** ** The chart window *)

Section ChartWindow.
Import JS Generator Worker Chart.
Local Open Scope R_scope.

Lemma relative_index_nat (a len : nat) :
  relative_index (Z.of_nat a) len = Nat.min a len.
Proof.
  unfold relative_index.
  destruct (Z.ltb_spec (Z.of_nat a) 0); lia.
Qed.

(** X11.  On a non-empty sample array and a non-negative elapsed time,
    with idx = min(floor(timeElapsed * 300), length - 1): the chart is left
    alone when idx = 0; otherwise its data becomes the c = min(idx, 800)
    values that precede sample idx, padded on the left with zeros, and
    holds exactly 800 entries. *)
Theorem chart_window (ecgData : list SamplePoint) (timeElapsed : R) :
  ecgData <> [] ->
  0 <= timeElapsed ->
  let idx :=
    Z.to_nat (Z.min (Zfloor (timeElapsed * 300))
                    (Z.of_nat (length ecgData) - 1)) in
  let c := Nat.min idx 800 in
  (idx = 0%nat -> updateECG ecgData timeElapsed = None)
  /\ ((0 < idx)%nat ->
      updateECG ecgData timeElapsed
      = Some (repeat 0 (800 - c)
              ++ map value (firstn c (skipn (idx - c) ecgData)))
      /\ length (repeat 0 (800 - c)
                 ++ map value (firstn c (skipn (idx - c) ecgData)))
         = 800%nat).
Proof.
  intros Hne Ht idx c.
  assert (Hlen : (0 < length ecgData)%nat)
    by (destruct ecgData; [ congruence | cbn; lia ]).
  assert (Hfloor : (0 <= Zfloor (timeElapsed * 300))%Z)
    by (apply Zfloor_lub; cbn; lra).
  assert (Hidx : Z.min (Zfloor (timeElapsed * 300))
                       (Z.of_nat (length ecgData) - 1) = Z.of_nat idx)
    by (unfold idx; lia).
  assert (Hidx_lt : (idx < length ecgData)%nat) by (unfold idx; lia).
  assert (Hdisplay :
    slice (Z.max 0 (Z.of_nat idx - POINTS)) (Z.of_nat idx) ecgData
    = firstn c (skipn (idx - c) ecgData)).
  { unfold slice, POINTS.
    replace (Z.max 0 (Z.of_nat idx - 800)) with (Z.of_nat (idx - c))
      by (unfold c; lia).
    rewrite !relative_index_nat.
    replace (Nat.min (idx - c) (length ecgData)) with (idx - c)%nat by lia.
    replace (Nat.min idx (length ecgData) - (idx - c))%nat with c
      by (unfold c; lia).
    reflexivity. }
  assert (Hcount : length (firstn c (skipn (idx - c) ecgData)) = c).
  { rewrite length_firstn, length_skipn. unfold c. lia. }
  unfold updateECG, SAMPLING_RATE.
  destruct (Nat.eqb_spec (length ecgData) 0) as [E | _]; [ lia | ].
  rewrite Hidx, Hdisplay, length_map, Hcount.
  split.
  - intro H0. replace c with 0%nat by (unfold c; lia). reflexivity.
  - intro Hpos.
    destruct (Nat.ltb_spec 0 c) as [_ | Hc]; [ | unfold c in Hc; lia ].
    replace (Z.to_nat (Z.max 0 (POINTS - Z.of_nat c))) with (800 - c)%nat
      by (unfold POINTS, c; lia).
    split; [ reflexivity | ].
    rewrite length_app, repeat_length, length_map, Hcount. unfold c. lia.
Qed.

Lemma chart_window_witness :
  let ecgData :=
    generateRealisticECG (fun _ => 0.5) 4 300 (Some 72) in
  updateECG ecgData 0.01
  = Some (repeat 0 797 ++ map value (firstn 3 ecgData)).
Proof.
  intro ecgData.
  assert (Hne : ecgData <> []) by discriminate.
  destruct (chart_window ecgData 0.01 Hne ltac:(lra)) as [_ H].
  assert (Hidx : Z.to_nat (Z.min (Zfloor (0.01 * 300))
                                 (Z.of_nat (length ecgData) - 1)) = 3%nat).
  { rewrite (Zfloor_eq 3); [ reflexivity | cbn; lra ]. }
  rewrite Hidx in H. exact (proj1 (H ltac:(lia))).
Defined.

End ChartWindow.

(** ** The phase shown by App *)

Section AppPhase.
Import Generator Worker Phases.
Local Open Scope R_scope.

Lemma first_containing_none (intervals : list PhaseInterval) (t : R) :
  (forall interval, In interval intervals -> ~ in_span interval t) ->
  first_containing intervals t = None.
Proof.
  induction intervals as [ | j rest IH ]; intro Hout; [ reflexivity | ].
  cbn [first_containing]. destruct (contains j t) eqn:E.
  - apply contains_in_span in E. exfalso.
    exact (Hout j (or_introl eq_refl) E).
  - apply IH. intros k Hk. apply Hout. right. exact Hk.
Qed.

(** X12.  The phase that App sets is the phase at the reference line of
    the chart, 2.5 s behind the elapsed time: with intervals that start
    at non-negative times, App shows "ST" during the first 2.5 seconds,
    and after that the phase the interval search gives for
    timeElapsed - 2.5. *)
Theorem app_phase_lags (pqrstIntervals : list PhaseInterval)
  (timeElapsed : R) :
  pqrstIntervals <> [] ->
  Forall (fun interval => 0 <= entry interval) pqrstIntervals ->
  app_phase pqrstIntervals timeElapsed
  = Some (phase_at pqrstIntervals (timeElapsed - 2.5))
  /\ (timeElapsed < 2.5 -> app_phase pqrstIntervals timeElapsed = Some "ST").
Proof.
  intros Hne Hentries.
  assert (Hlag : app_phase pqrstIntervals timeElapsed
                 = Some (phase_at pqrstIntervals (timeElapsed - 2.5))).
  { unfold app_phase.
    destruct pqrstIntervals as [ | j rest ]; [ congruence | ].
    cbn [length Nat.eqb]. do 2 f_equal. lra. }
  split; [ exact Hlag | ].
  intro Hearly. rewrite Hlag. unfold phase_at.
  rewrite first_containing_none; [ reflexivity | ].
  intros interval Hin [Hlo Hhi].
  rewrite Forall_forall in Hentries. specialize (Hentries interval Hin). lra.
Qed.

Lemma app_phase_lags_witness :
  let intervals :=
    [ {| phase := "QRS"; entry := 0; duration := 0.1 |};
      {| phase := "PQ"; entry := 0.1; duration := 0.3 |} ] in
  app_phase intervals 1 = Some (phase_at intervals (1 - 2.5))
  /\ (1 < 2.5 -> app_phase intervals 1 = Some "ST").
Proof.
  intro intervals. apply app_phase_lags.
  - discriminate.
  - repeat constructor; cbn; lra.
Defined.

End AppPhase.

(** ** AnimationManager: counting QRS complexes *)

Section ManagerFacts.
Import JS Generator Worker Phases Manager.

Variable mixer : bool.
Variable pqrstIntervals : list PhaseInterval.

Lemma count_qrs_fields (newPhase : string) (now : Z) (s : state) :
  currentPhase (count_qrs newPhase now s) = currentPhase s
  /\ virtualBPM (count_qrs newPhase now s) = virtualBPM s.
Proof.
  unfold count_qrs.
  destruct (String.eqb newPhase "QRS" && negb (String.eqb (currentPhase s) "QRS"));
    [ destruct (now - lastQrsTime s >? 200)%Z | ]; split; reflexivity.
Qed.

Lemma phase_effect_virtualBPM (timeElapsed : R) (now : Z) (s : state) :
  virtualBPM (fst (phase_effect mixer pqrstIntervals timeElapsed now s))
  = virtualBPM s.
Proof.
  unfold phase_effect.
  destruct (length pqrstIntervals =? 0)%nat; [ reflexivity | ].
  destruct (first_containing pqrstIntervals timeElapsed) as [ interval | ];
    match goal with
    | |- context [ negb (String.eqb ?a ?b) ] =>
        destruct (negb (String.eqb a b))
    end; cbn [fst virtualBPM]; try reflexivity;
    apply count_qrs_fields.
Qed.

Lemma step_bpm_shown (s : state) (e : event) :
  bpm_shown (virtualBPM s) ->
  bpm_shown (virtualBPM (step mixer pqrstIntervals s e)).
Proof.
  intro Hs. destruct e as [ | timeElapsed now | isPlaying ]; cbn [step].
  - unfold calculateBPM.
    destruct (Nat.ltb_spec 0 (qrsCount s)) as [Hpos | _];
      cbn [fst virtualBPM]; [ | exact Hs ].
    right. split; [ lia | ].
    destruct (Z.min_spec (Z.of_nat (qrsCount s) * 2) 200) as [[_ ->] | [_ ->]];
      [ rewrite Z.even_mul; apply Bool.orb_true_r | reflexivity ].
  - rewrite phase_effect_virtualBPM. exact Hs.
  - unfold play_effect. destruct mixer, isPlaying; cbn [negb virtualBPM];
      try exact Hs; left; reflexivity.
Qed.

End ManagerFacts.

Section ManagerClaims.
Import JS Generator Worker Phases Manager.

Variable mixer : bool.
Variable pqrstIntervals : list PhaseInterval.

(** X13.  After any sequence of timer ticks, phase effects and play/pause
    effects, the virtual BPM is 0 or an even number between 2 and 200. *)
Theorem virtual_bpm_invariant (events : list event) :
  bpm_shown (virtualBPM (run mixer pqrstIntervals events initial)).
Proof.
  unfold run.
  assert (Hgen : forall s, bpm_shown (virtualBPM s) ->
            bpm_shown (virtualBPM (fold_left (step mixer pqrstIntervals) events s))).
  { induction events as [ | e events IH ]; intros s Hs; [ exact Hs | ].
    cbn [fold_left]. apply IH, step_bpm_shown, Hs. }
  apply Hgen. left. reflexivity.
Qed.

Lemma step_inside_qrs (s : state) (e : event) :
  inside_qrs pqrstIntervals e ->
  currentPhase (step mixer pqrstIntervals s e) = "QRS"
  /\ (qrsCount (step mixer pqrstIntervals s e) <= qrsCount s + 1)%nat
  /\ (currentPhase s = "QRS" ->
      qrsCount (step mixer pqrstIntervals s e) = qrsCount s).
Proof.
  intros (timeElapsed & now & interval & -> & Hfound & Hphase).
  cbn [step]. unfold phase_effect, phase_at. rewrite Hfound, Hphase.
  destruct pqrstIntervals as [ | j rest ]; [ discriminate | ].
  cbn [length Nat.eqb]. unfold count_qrs. cbn [String.eqb Ascii.eqb Bool.eqb andb].
  destruct (String.eqb_spec (currentPhase s) "QRS") as [E | Hne]; cbn [negb].
  - rewrite E. cbn [String.eqb Ascii.eqb Bool.eqb negb fst].
    repeat split; try assumption; lia.
  - destruct (now - lastQrsTime s >? 200)%Z; cbn [currentPhase].
    + apply String.eqb_neq in Hne. rewrite Hne. cbn [negb fst currentPhase qrsCount].
      repeat split; try lia. intro E. apply String.eqb_neq in Hne. contradiction.
    + apply String.eqb_neq in Hne. rewrite Hne. cbn [negb fst currentPhase qrsCount].
      repeat split; try lia.
Qed.

(** X14.  A QRS complex is counted at most once: over any sequence of
    phase effects whose times all fall inside QRS intervals, the QRS
    counter grows by at most one. *)
Theorem qrs_counted_once (events : list event) (s : state) :
  Forall (inside_qrs pqrstIntervals) events ->
  (qrsCount (run mixer pqrstIntervals events s) <= qrsCount s + 1)%nat.
Proof.
  unfold run. intro Hall.
  destruct Hall as [ | e events He Hrest ]; [ cbn; lia | ].
  cbn [fold_left].
  destruct (step_inside_qrs s e He) as (Hphase & Hcount & _).
  assert (Hstay : forall s', currentPhase s' = "QRS" ->
            qrsCount (fold_left (step mixer pqrstIntervals) events s')
            = qrsCount s').
  { clear Hphase Hcount He. induction Hrest as [ | e' events He' _ IH ];
      intros s' Hs'; [ reflexivity | ].
    cbn [fold_left].
    destruct (step_inside_qrs s' e' He') as (Hphase' & _ & Hsame).
    rewrite (IH _ Hphase'). apply Hsame, Hs'. }
  rewrite (Hstay _ Hphase). exact Hcount.
Qed.

Lemma step_within_debounce (s : state) (e : event) :
  within_debounce (lastQrsTime s) e ->
  lastQrsTime (step mixer pqrstIntervals s e) = lastQrsTime s
  /\ (qrsCount (step mixer pqrstIntervals s e) <= qrsCount s)%nat.
Proof.
  destruct e as [ | timeElapsed now | isPlaying ]; cbn [step within_debounce].
  - intros _. unfold calculateBPM.
    destruct (0 <? qrsCount s)%nat; cbn [fst lastQrsTime qrsCount];
      split; try reflexivity; lia.
  - intro Hnow. unfold phase_effect.
    destruct (length pqrstIntervals =? 0)%nat;
      [ cbn [fst]; split; [ reflexivity | lia ] | ].
    assert (Hcount : count_qrs (phase_at pqrstIntervals timeElapsed) now s = s).
    { unfold count_qrs.
      destruct (String.eqb (phase_at pqrstIntervals timeElapsed) "QRS"
                && negb (String.eqb (currentPhase s) "QRS")); [ | reflexivity ].
      destruct (Z.gtb_spec (now - lastQrsTime s) 200); [ lia | reflexivity ]. }
    destruct (first_containing pqrstIntervals timeElapsed);
      try rewrite Hcount;
      match goal with
      | |- context [ negb (String.eqb ?a ?b) ] =>
          destruct (negb (String.eqb a b))
      end; cbn [fst lastQrsTime qrsCount]; split; try reflexivity; lia.
  - intros _. unfold play_effect.
    destruct mixer, isPlaying; cbn [negb lastQrsTime qrsCount];
      split; try reflexivity; lia.
Qed.

(** X15.  The debounce: as long as every phase effect runs no more than
    200 ms after the last counted QRS onset, nothing is counted (the
    counter does not grow and the time of the last counted onset stays),
    whatever phases are entered and left in between. *)
Theorem qrs_debounce (events : list event) (s : state) :
  Forall (within_debounce (lastQrsTime s)) events ->
  lastQrsTime (run mixer pqrstIntervals events s) = lastQrsTime s
  /\ (qrsCount (run mixer pqrstIntervals events s) <= qrsCount s)%nat.
Proof.
  unfold run. revert s.
  induction events as [ | e events IH ]; intros s Hall;
    [ cbn; split; [ reflexivity | lia ] | ].
  inversion Hall as [ | ? ? He Hrest ]; subst. cbn [fold_left].
  destruct (step_within_debounce s e He) as [Hlast Hcount].
  rewrite <- Hlast in Hrest.
  destruct (IH _ Hrest) as [Hlast' Hcount'].
  split; [ congruence | lia ].
Qed.

End ManagerClaims.

Lemma qrs_counted_once_witness :
  let intervals :=
    [ {| Worker.phase := "QRS"; Worker.entry := 0; Worker.duration := 0.1 |} ] in
  (Manager.qrsCount
     (Manager.run true intervals
        [Manager.TimeElapsed 0.02 1000; Manager.TimeElapsed 0.05 1300]
        Manager.initial)
   <= Manager.qrsCount Manager.initial + 1)%nat.
Proof.
  intro intervals. apply qrs_counted_once.
  assert (Hin : forall t : R, (0 <= t < 0.1)%R ->
            Phases.first_containing intervals t
            = Some {| Worker.phase := "QRS"; Worker.entry := 0;
                      Worker.duration := 0.1 |}).
  { intros t Ht. unfold intervals. cbn [Phases.first_containing].
    rewrite (proj2 (contains_in_span _ t)); [ reflexivity | ].
    unfold Worker.in_span. cbn. lra. }
  repeat constructor.
  - exists 0.02%R, 1000%Z. eexists.
    split; [ reflexivity | split; [ apply Hin; lra | reflexivity ] ].
  - exists 0.05%R, 1300%Z. eexists.
    split; [ reflexivity | split; [ apply Hin; lra | reflexivity ] ].
Defined.

Lemma qrs_debounce_witness :
  let intervals :=
    [ {| Worker.phase := "QRS"; Worker.entry := 0; Worker.duration := 0.1 |} ] in
  let s := {| Manager.currentPhase := "ST"; Manager.qrsCount := 1;
              Manager.lastQrsTime := 5000; Manager.virtualBPM := 0 |} in
  Manager.lastQrsTime
    (Manager.run true intervals
       [Manager.TimeElapsed 0.02 5100; Manager.Tick;
        Manager.TimeElapsed 0.3 5150; Manager.TimeElapsed 0.05 5200] s)
  = 5000%Z
  /\ (Manager.qrsCount
        (Manager.run true intervals
           [Manager.TimeElapsed 0.02 5100; Manager.Tick;
            Manager.TimeElapsed 0.3 5150; Manager.TimeElapsed 0.05 5200] s)
      <= 1)%nat.
Proof.
  intros intervals s.
  apply (qrs_debounce true intervals _ s).
  repeat constructor; cbn; lia.
Defined.

(** ** The phase effects and their frame tables *)

Section FrameTables.
Import JS Generator Worker Phases.
Local Open Scope R_scope.

(** X16.  With a mixer attached, the phase effect of AnimationManager
    throws a TypeError exactly when the first interval containing the time
    carries a phase other than "QRS", "PQ" and "ST" that differs from the
    current phase; the current phase has then already been set to that
    label. *)
Theorem manager_unknown_phase (pqrstIntervals : list PhaseInterval)
  (timeElapsed : R) (now : Z) (s : Manager.state) :
  (snd (Manager.phase_effect true pqrstIntervals timeElapsed now s)
   = Throw TypeError
   <-> exists interval,
         first_containing pqrstIntervals timeElapsed = Some interval
         /\ Manager.PHASE_TO_FRAMES (phase interval) = None
         /\ Manager.currentPhase s <> phase interval)
  /\ (snd (Manager.phase_effect true pqrstIntervals timeElapsed now s)
      = Throw TypeError ->
      Manager.currentPhase
        (fst (Manager.phase_effect true pqrstIntervals timeElapsed now s))
      = phase_at pqrstIntervals timeElapsed).
Proof.
  unfold Manager.phase_effect, phase_at.
  destruct (length pqrstIntervals =? 0)%nat eqn:Elen.
  { destruct pqrstIntervals; [ | discriminate ]. cbn.
    split; [ split; [ discriminate | intros (i & H & _); discriminate ]
           | discriminate ]. }
  destruct (first_containing pqrstIntervals timeElapsed) as [ interval | ].
  - pose proof (count_qrs_fields (phase interval) now s) as [Hcp _].
    destruct (String.eqb_spec
                (Manager.currentPhase (Manager.count_qrs (phase interval) now s))
                (phase interval)) as [E | Hne]; cbn [negb snd fst].
    + split; [ split; [ discriminate | ] | discriminate ].
      intros (i & Hi & _ & Hdiff). injection Hi as <-. congruence.
    + unfold Manager.updateAnimationForPhase. cbn [negb].
      destruct (Manager.PHASE_TO_FRAMES (phase interval)) eqn:Ef; cbn [bind].
      * split; [ split; [ discriminate | ] | discriminate ].
        intros (i & Hi & Hnone & _). injection Hi as <-. congruence.
      * split; [ split; [ intros _ | reflexivity ] | reflexivity ].
        exists interval. repeat split; congruence.
  - destruct (negb (String.eqb (Manager.currentPhase s) "ST"));
      cbn [snd fst Manager.updateAnimationForPhase];
      (split; [ split; [ discriminate | intros (i & H & _); discriminate ]
              | discriminate ]).
Qed.

Lemma frames_table (phase : string) (frame_start frame_end : Z) :
  HeartModel.HEARTBEAT_FRAMES phase = HeartModel.Range frame_start frame_end ->
  (0 <= frame_start < frame_end)%Z /\ (frame_end <= 60)%Z.
Proof.
  unfold HeartModel.HEARTBEAT_FRAMES.
  destruct (String.eqb phase "PQ"); [ intro H; injection H as <- <-; lia | ].
  destruct (String.eqb phase "QRS"); [ intro H; injection H as <- <-; lia | ].
  destruct (String.eqb phase "ST"); [ intro H; injection H as <- <-; lia | ].
  destruct (HeartModel.prototype_name phase); discriminate.
Qed.

(** The offset into a frame range, for a progress anywhere in [0, 1],
    the quotient 1 included: [Math.min] keeps the frame in the range. *)
Lemma frame_offset (width : Z) (phaseProgress : R) :
  (0 < width)%Z -> 0 <= phaseProgress <= 1 ->
  (0 <= Zfloor (IZR width * phaseProgress) <= width)%Z.
Proof.
  intros Hw [Hlo Hhi].
  assert (Hwr : 0 < IZR width) by (apply IZR_lt in Hw; exact Hw).
  destruct (Zfloor_bound (IZR width * phaseProgress)) as [Hfl Hfu].
  split.
  - apply Zfloor_lub. cbn. nra.
  - apply Z.lt_succ_r. apply lt_IZR. rewrite succ_IZR. nra.
Qed.

Lemma first_containing_nonempty (intervals : list PhaseInterval) (t : R)
  (interval : PhaseInterval) :
  first_containing intervals t = Some interval ->
  (length intervals =? 0)%nat = false.
Proof. destruct intervals; [ discriminate | reflexivity ]. Qed.

(** X17.  With a mixer attached, the phase effect of HeartModel sets no
    frame when no interval contains the time, and throws a TypeError when
    the frame table gives undefined for the phase of the first containing
    interval.  For the phases "PQ", "QRS" and "ST" it computes a frame f of
    the range of the phase, start <= f <= end, which setExactFrame
    accepts. *)
Theorem heart_frame (pqrstIntervals : list PhaseInterval) (timeElapsed : R) :
  (first_containing pqrstIntervals timeElapsed = None ->
   HeartModel.target_frame true pqrstIntervals timeElapsed = Ok None)
  /\ (forall interval,
        first_containing pqrstIntervals timeElapsed = Some interval ->
        HeartModel.HEARTBEAT_FRAMES (phase interval) = HeartModel.Undefined ->
        HeartModel.target_frame true pqrstIntervals timeElapsed
        = Throw TypeError)
  /\ (forall interval frame_start frame_end,
        first_containing pqrstIntervals timeElapsed = Some interval ->
        HeartModel.HEARTBEAT_FRAMES (phase interval)
        = HeartModel.Range frame_start frame_end ->
        exists f,
          HeartModel.target_frame true pqrstIntervals timeElapsed
          = Ok (Some (HeartModel.FrameNumber f))
          /\ (frame_start <= f <= frame_end)%Z
          /\ forall currentFrame,
               HeartModel.setExactFrame true (HeartModel.FrameNumber f)
                 currentFrame
               = HeartModel.FrameNumber f).
Proof.
  unfold HeartModel.target_frame. cbn [negb orb].
  split; [ | split ].
  - intros ->. destruct (length pqrstIntervals =? 0)%nat; reflexivity.
  - intros interval Hfound Hnone.
    rewrite (first_containing_nonempty _ _ _ Hfound), Hfound, Hnone.
    reflexivity.
  - intros interval frame_start frame_end Hfound Hsome.
    rewrite (first_containing_nonempty _ _ _ Hfound), Hfound, Hsome.
    destruct (frames_table _ _ _ Hsome) as [Hs He].
    destruct (first_containing_in_span _ _ _ Hfound) as [_ Hspan].
    destruct (progress_in_span _ _ Hspan) as [_ Hprog].
    pose proof (frame_offset (frame_end - frame_start) _ ltac:(lia)
                  (conj (proj1 Hprog) (Rlt_le _ _ (proj2 Hprog))))
      as Hoff.
    eexists. split; [ reflexivity | ].
    split; [ lia | ].
    intro currentFrame. unfold HeartModel.setExactFrame, HeartModel.TOTAL_FRAMES.
    cbn [negb orb].
    match goal with
    | |- (if (?a <? 0)%Z || (?b >? 61)%Z then _ else _) = _ =>
        destruct (Z.ltb_spec a 0); [ lia | ];
        destruct (Z.gtb_spec b 61); [ lia | ]
    end.
    reflexivity.
Qed.

(** X18.  Within one interval the frame never goes back: for two times
    t1 <= t2 that the search assigns to the same interval, the frame
    computed at t1 is at most the frame computed at t2. *)
Theorem heart_frame_monotone (pqrstIntervals : list PhaseInterval)
  (t1 t2 : R) (interval : PhaseInterval) (f1 f2 : Z) :
  t1 <= t2 ->
  first_containing pqrstIntervals t1 = Some interval ->
  first_containing pqrstIntervals t2 = Some interval ->
  HeartModel.target_frame true pqrstIntervals t1
  = Ok (Some (HeartModel.FrameNumber f1)) ->
  HeartModel.target_frame true pqrstIntervals t2
  = Ok (Some (HeartModel.FrameNumber f2)) ->
  (f1 <= f2)%Z.
Proof.
  intros Ht H1 H2. unfold HeartModel.target_frame. cbn [negb orb].
  rewrite (first_containing_nonempty _ _ _ H1), H1, H2.
  destruct (HeartModel.HEARTBEAT_FRAMES (phase interval))
    as [ frame_start frame_end | | ] eqn:Hsome; try discriminate.
  intros E1 E2. injection E1 as <-. injection E2 as <-.
  destruct (frames_table _ _ _ Hsome) as [Hs He].
  destruct (first_containing_in_span _ _ _ H1) as [_ Hspan].
  destruct (progress_in_span _ _ Hspan) as [Hd _].
  assert (Hw : 0 < IZR (frame_end - frame_start))
    by (apply IZR_lt; lia).
  assert (Hprog : (t1 - entry interval) / duration interval
                  <= (t2 - entry interval) / duration interval).
  { apply Rmult_le_compat_r; [ left; apply Rinv_0_lt_compat, Hd | lra ]. }
  assert (Hfloor :
    (Zfloor (IZR (frame_end - frame_start)
             * ((t1 - entry interval) / duration interval))
     <= Zfloor (IZR (frame_end - frame_start)
                * ((t2 - entry interval) / duration interval)))%Z).
  { apply Zfloor_le. apply Rmult_le_compat_l; [ lra | exact Hprog ]. }
  lia.
Qed.

End FrameTables.

(** ** ReverseECG: the spikes, the queue and the buffer *)

Section ReverseFacts.
Import JS Generator ReverseECG.
Local Open Scope R_scope.

Lemma nth_map_seq (f : nat -> R) (n i : nat) (d : R) :
  (i < n)%nat -> nth i (map f (seq 0 n)) d = f i.
Proof.
  intro Hi.
  rewrite (nth_indep _ d (f 0%nat)) by (rewrite length_map, length_seq; exact Hi).
  rewrite map_nth, seq_nth by exact Hi. reflexivity.
Qed.

Lemma bell_range (x : R) : 0 < exp (-60 * (x - 0.5) ^ 2) <= 1.
Proof.
  apply exp_le_1. pose proof (pow2_ge_0 (x - 0.5)). lra.
Qed.

(** X19.  A spike of at least two points has the length asked for, and
    every point of it lies in (0, height]. *)
Theorem spike_shape (length : nat) (height : R) (i : nat) :
  (2 <= length)%nat -> 0 < height -> (i < length)%nat ->
  List.length (generateSpike length height) = length
  /\ 0 < nth i (generateSpike length height) 0 <= height.
Proof.
  intros Hlen Hheight Hi. unfold generateSpike.
  split; [ rewrite length_map, length_seq; reflexivity | ].
  rewrite !nth_map_seq by lia.
  pose proof (bell_range (INR i / (INR length - 1))). nra.
Qed.

Lemma spike_shape_witness :
  List.length (generateSpike 20 1.0) = 20%nat
  /\ 0 < nth 4 (generateSpike 20 1.0) 0 <= 1.0.
Proof.
  apply (spike_shape 20 1.0 4); [ lia | lra | lia ].
Defined.

(** X20.  A dip is the mirror image of the spike of the same length and
    size. *)
Theorem dip_is_negated_spike (length : nat) (depth : R) :
  generateDip length depth = map Ropp (generateSpike length depth).
Proof.
  unfold generateDip, generateSpike. rewrite map_map.
  apply map_ext. intro i. cbv zeta. ring.
Qed.

Lemma spike_bounds (length : nat) (height : R) :
  0 <= height ->
  Forall (fun v => 0 <= v <= height) (generateSpike length height).
Proof.
  intro Hh. unfold generateSpike. apply Forall_forall. intros v Hin.
  apply in_map_iff in Hin. destruct Hin as [i [<- _]].
  pose proof (bell_range (INR i / (INR length - 1))). cbv zeta. nra.
Qed.

Lemma dip_bounds (length : nat) (depth : R) :
  0 <= depth ->
  Forall (fun v => - depth <= v <= 0) (generateDip length depth).
Proof.
  intro Hd. unfold generateDip. apply Forall_forall. intros v Hin.
  apply in_map_iff in Hin. destruct Hin as [i [<- _]].
  pose proof (bell_range (INR i / (INR length - 1))). cbv zeta. nra.
Qed.

Lemma blank_bounds (len : Z) : Forall (fun v => v = 0) (blank len).
Proof.
  unfold blank. apply Forall_forall. intros v Hin.
  apply repeat_spec in Hin. exact Hin.
Qed.

Lemma complex_range : Forall queue_range complex.
Proof.
  unfold complex, injectQRSComplex. cbv zeta. cbn [app].
  repeat (apply Forall_app; split);
    try (eapply Forall_impl; [ | apply blank_bounds ];
         intros v ->; unfold queue_range; lra).
  - eapply Forall_impl; [ | apply (spike_bounds 30 0.3); lra ].
    intros v Hv. unfold queue_range. cbv beta in Hv. lra.
  - eapply Forall_impl; [ | apply (dip_bounds 10 0.2); lra ].
    intros v Hv. unfold queue_range. cbv beta in Hv. lra.
  - eapply Forall_impl; [ | apply (spike_bounds 20 1.0); lra ].
    intros v Hv. unfold queue_range. cbv beta in Hv. lra.
  - eapply Forall_impl; [ | apply (dip_bounds 10 0.3); lra ].
    intros v Hv. unfold queue_range. cbv beta in Hv. lra.
  - eapply Forall_impl; [ | apply (spike_bounds 40 0.5); lra ].
    intros v Hv. unfold queue_range. cbv beta in Hv. lra.
Qed.

End ReverseFacts.

Section ReverseClaims.
Import JS Generator ReverseECG.
Local Open Scope R_scope.

Lemma inject_queue (waveQueue : list R) :
  injectQRSComplex waveQueue = waveQueue ++ complex.
Proof.
  unfold complex, injectQRSComplex. cbv zeta. cbn [app].
  rewrite !app_assoc. reflexivity.
Qed.

(** X21.  Each trigger appends the same 173 samples behind whatever is
    queued, and every one of them lies in [-0.3, 1]. *)
Theorem inject_appends_complex (waveQueue : list R) :
  injectQRSComplex waveQueue = waveQueue ++ complex
  /\ length complex = 173%nat
  /\ Forall queue_range complex.
Proof.
  split; [ apply inject_queue | split; [ | apply complex_range ] ].
  unfold complex, injectQRSComplex, pWave, qDip, rSpike, sDip, tWave,
    generateSpike, generateDip, blank.
  cbv zeta. cbn [app].
  rewrite !length_app, !repeat_length, !length_map, !length_seq.
  reflexivity.
Qed.

Lemma push_samples_spec (random : nat -> R) (time : R) (fuel : nat) :
  (forall i, 0 <= random i < 1) ->
  forall (i : nat) (queue buffer : list R),
    Forall queue_range queue -> Forall buffer_range buffer ->
    let result := push_samples random time fuel i queue buffer in
    fst result = skipn fuel queue
    /\ length (snd result) = (length buffer + fuel)%nat
    /\ Forall buffer_range (snd result).
Proof.
  intro Hrandom. induction fuel as [ | fuel IH ];
    intros i queue buffer Hq Hb; cbn [push_samples].
  - cbn. repeat split; [ lia | exact Hb ].
  - assert (Hnext : queue_range (match queue with x :: _ => x | [] => 0 end)).
    { destruct Hq; [ unfold queue_range; lra | assumption ]. }
    assert (Hrest : Forall queue_range
                      (match queue with _ :: rest => rest | [] => [] end)).
    { destruct Hq; [ constructor | assumption ]. }
    assert (Hpushed : Forall buffer_range
      (buffer ++ [match queue with x :: _ => x | [] => 0 end
                  + (random i * 0.03 - 0.015)
                  + 0.03 * sin (2 * PI * time / 1000 * 0.5)])).
    { apply Forall_app. split; [ exact Hb | ]. constructor; [ | constructor ].
      pose proof (Hrandom i).
      pose proof (SIN_bound (2 * PI * time / 1000 * 0.5)).
      unfold queue_range in Hnext. unfold buffer_range. lra. }
    destruct (IH (S i) _ _ Hrest Hpushed) as (Hqueue & Hlen & Hrange).
    cbv zeta in Hqueue, Hlen, Hrange |- *.
    split; [ | split; [ | exact Hrange ] ].
    + rewrite Hqueue. destruct queue; [ destruct fuel | ]; reflexivity.
    + rewrite Hlen, length_app. cbn. lia.
Qed.

Lemma update_invariant (random : nat -> R) (speedMultiplier time : R)
  (s : state) :
  length (signalBuffer s) = 800%nat ->
  (forall i, 0 <= random i < 1) ->
  Forall queue_range (waveQueue s) ->
  Forall buffer_range (signalBuffer s) ->
  let n := Z.to_nat
             (Zfloor ((simTime s
                       + (time - lastUpdateTime s) / 1000 * speedMultiplier)
                      * 300)) in
  let s' := update random speedMultiplier time s in
  length (signalBuffer s') = 800%nat
  /\ Forall buffer_range (signalBuffer s')
  /\ waveQueue s' = skipn n (waveQueue s)
  /\ Forall queue_range (waveQueue s')
  /\ 0 <= simTime s' < 1 / 300.
Proof.
  intros Hlen Hrandom Hq Hb n s'. unfold s', update, SAMPLE_RATE.
  fold n.
  destruct (push_samples_spec random time n Hrandom 0 _ _ Hq Hb)
    as (Hqueue & Hlen' & Hrange).
  cbv zeta in Hqueue, Hlen', Hrange.
  destruct (push_samples random time n 0 (waveQueue s) (signalBuffer s))
    as [queue buffer].
  cbn [fst snd] in Hqueue, Hlen', Hrange.
  cbn [signalBuffer waveQueue simTime].
  unfold slice_last, POINTS_ON_SCREEN.
  split; [ rewrite length_skipn; lia | ].
  split.
  { apply Forall_forall. intros v Hin.
    rewrite Forall_forall in Hrange. apply Hrange.
    rewrite <- (firstn_skipn (length buffer - 800) buffer).
    apply in_or_app. right. exact Hin. }
  split; [ exact Hqueue | ].
  split.
  { rewrite Hqueue. apply Forall_forall. intros v Hin.
    rewrite Forall_forall in Hq. apply Hq.
    rewrite <- (firstn_skipn n (waveQueue s)).
    apply in_or_app. right. exact Hin. }
  destruct (Zfloor_bound
              ((simTime s + (time - lastUpdateTime s) / 1000 * speedMultiplier)
               * 300)) as [Hlo Hhi].
  split; lra.
Qed.

(** X22.  One animation frame keeps a full buffer full: if the signal
    buffer held 800 samples it holds 800 afterwards.  The frame takes the
    n = floor(simTime * 300) first samples off the wave queue, n counted
    after the elapsed time was added, and leaves in simTime the part of a
    sample period not yet played, a time in [0, 1/300). *)
Theorem reverse_frame (random : nat -> R) (speedMultiplier time : R)
  (s : state) :
  length (signalBuffer s) = 800%nat ->
  (forall i, 0 <= random i < 1) ->
  Forall queue_range (waveQueue s) ->
  Forall buffer_range (signalBuffer s) ->
  let n := Z.to_nat
             (Zfloor ((simTime s
                       + (time - lastUpdateTime s) / 1000 * speedMultiplier)
                      * 300)) in
  let s' := update random speedMultiplier time s in
  length (signalBuffer s') = 800%nat
  /\ Forall buffer_range (signalBuffer s')
  /\ waveQueue s' = skipn n (waveQueue s)
  /\ Forall queue_range (waveQueue s')
  /\ 0 <= simTime s' < 1 / 300.
Proof. apply update_invariant. Qed.

(** X23.  From the mounting of the component on, whatever frames and QRS
    triggers follow, the signal buffer holds exactly 800 samples, each in
    [-0.345, 1.045], inside the y axis [-1, 2] of the chart. *)
Theorem reverse_buffer_invariant (now : R) (events : list event) :
  Forall fair events ->
  let s := fold_left step events (initial now) in
  length (signalBuffer s) = 800%nat
  /\ Forall buffer_range (signalBuffer s)
  /\ Forall queue_range (waveQueue s).
Proof.
  intro Hfair. cbv zeta.
  assert (Hgen : forall s,
    (length (signalBuffer s) = 800%nat
     /\ Forall buffer_range (signalBuffer s)
     /\ Forall queue_range (waveQueue s)) ->
    let s' := fold_left step events s in
    length (signalBuffer s') = 800%nat
    /\ Forall buffer_range (signalBuffer s')
    /\ Forall queue_range (waveQueue s')).
  { induction Hfair as [ | e events He _ IH ]; intros s Hs; [ exact Hs | ].
    cbn [fold_left]. apply IH. destruct Hs as (Hlen & Hb & Hq).
    destruct e as [ random speedMultiplier time | ]; cbn [step].
    - destruct (update_invariant random speedMultiplier time s Hlen He Hq Hb)
        as (H1 & H2 & _ & H4 & _).
      repeat split; assumption.
    - cbn [signalBuffer waveQueue].
      rewrite inject_queue.
      repeat split; try assumption.
      apply Forall_app. split; [ assumption | apply complex_range ]. }
  apply Hgen. unfold initial, POINTS_ON_SCREEN. cbn [signalBuffer waveQueue].
  split; [ apply repeat_length | ].
  split; [ | constructor ].
  apply Forall_forall. intros v Hin. apply repeat_spec in Hin.
  unfold buffer_range. lra.
Qed.

End ReverseClaims.

Lemma reverse_frame_witness :
  let s := ReverseECG.initial 1000 in
  let s' := ReverseECG.update (fun _ => 0.5%R) 1 1016 s in
  length (ReverseECG.signalBuffer s') = 800%nat
  /\ Forall ReverseECG.buffer_range (ReverseECG.signalBuffer s')
  /\ ReverseECG.waveQueue s'
     = skipn (Z.to_nat (Zfloor ((0 + (1016 - 1000) / 1000 * 1) * 300)))
             (ReverseECG.waveQueue s)
  /\ Forall ReverseECG.queue_range (ReverseECG.waveQueue s')
  /\ (0 <= ReverseECG.simTime s' < 1 / 300)%R.
Proof.
  intro s.
  apply (reverse_frame (fun _ => 0.5%R) 1 1016 s).
  - apply repeat_length.
  - intro i. lra.
  - constructor.
  - apply Forall_forall. intros v Hin. apply repeat_spec in Hin.
    unfold ReverseECG.buffer_range. lra.
Defined.

Lemma reverse_buffer_invariant_witness :
  let s :=
    fold_left ReverseECG.step
      [ReverseECG.QrsPhase; ReverseECG.Frame (fun _ => 0.5%R) 1 1016]
      (ReverseECG.initial 1000) in
  length (ReverseECG.signalBuffer s) = 800%nat
  /\ Forall ReverseECG.buffer_range (ReverseECG.signalBuffer s)
  /\ Forall ReverseECG.queue_range (ReverseECG.waveQueue s).
Proof.
  apply (reverse_buffer_invariant 1000).
  constructor; [ exact I | ].
  constructor; [ intro i; cbn; lra | constructor ].
Defined.

Lemma heart_frame_witness :
  let intervals :=
    [ {| Worker.phase := "QRS"; Worker.entry := 0; Worker.duration := 0.1 |} ] in
  exists f,
    HeartModel.target_frame true intervals 0.05%R
    = JS.Ok (Some (HeartModel.FrameNumber f))
    /\ (15 <= f <= 30)%Z
    /\ forall currentFrame,
         HeartModel.setExactFrame true (HeartModel.FrameNumber f) currentFrame
         = HeartModel.FrameNumber f.
Proof.
  intro intervals.
  refine (proj2 (proj2 (heart_frame intervals 0.05%R))
            {| Worker.phase := "QRS"; Worker.entry := 0; Worker.duration := 0.1 |}
            15%Z 30%Z _ _); [ | reflexivity ].
  unfold intervals. cbn [Phases.first_containing].
  rewrite (proj2 (contains_in_span _ 0.05%R)); [ reflexivity | ].
  unfold Worker.in_span. cbn. lra.
Defined.

Lemma heart_frame_monotone_witness :
  let qrs := {| Worker.phase := "QRS"; Worker.entry := 0;
                Worker.duration := 0.1 |} in
  HeartModel.target_frame true [qrs] 0.05%R
  = JS.Ok (Some (HeartModel.FrameNumber 22))
  /\ HeartModel.target_frame true [qrs] 0.075%R
     = JS.Ok (Some (HeartModel.FrameNumber 26))
  /\ (22 <= 26)%Z.
Proof.
  intro qrs.
  assert (Hin : forall t : R, (0 <= t < 0.1)%R ->
            Phases.first_containing [qrs] t = Some qrs).
  { intros t Ht. cbn [Phases.first_containing].
    rewrite (proj2 (contains_in_span _ t)); [ reflexivity | ].
    unfold Worker.in_span. cbn. lra. }
  assert (Hframe : forall (t : R) (k : Z), (0 <= t < 0.1)%R ->
            (IZR k <= IZR (30 - 15) * ((t - 0) / 0.1) < IZR k + 1)%R ->
            HeartModel.target_frame true [qrs] t
            = JS.Ok (Some (HeartModel.FrameNumber (Z.min 30 (15 + k))))).
  { intros t k Ht Hk. unfold HeartModel.target_frame.
    cbn [negb orb length Nat.eqb]. rewrite (Hin t Ht).
    cbn [Worker.phase Worker.entry Worker.duration qrs
         HeartModel.HEARTBEAT_FRAMES String.eqb Ascii.eqb Bool.eqb].
    rewrite (Zfloor_eq k); [ reflexivity | exact Hk ]. }
  assert (H1 : HeartModel.target_frame true [qrs] 0.05%R
               = JS.Ok (Some (HeartModel.FrameNumber 22)))
    by (rewrite (Hframe 0.05%R 7%Z); [ reflexivity | lra | cbn; lra ]).
  assert (H2 : HeartModel.target_frame true [qrs] 0.075%R
               = JS.Ok (Some (HeartModel.FrameNumber 26)))
    by (rewrite (Hframe 0.075%R 11%Z); [ reflexivity | lra | cbn; lra ]).
  split; [ exact H1 | split; [ exact H2 | ] ].
  apply (heart_frame_monotone [qrs] 0.05%R 0.075%R qrs 22 26);
    [ lra | apply Hin; lra | apply Hin; lra | exact H1 | exact H2 ].
Defined.

Lemma manager_unknown_phase_witness :
  let intervals :=
    [ {| Worker.phase := "T"; Worker.entry := 0; Worker.duration := 0.2 |} ] in
  snd (Manager.phase_effect true intervals 0.1%R 1000 Manager.initial)
  = JS.Throw JS.TypeError.
Proof.
  intro intervals.
  apply (proj1 (manager_unknown_phase intervals 0.1%R 1000 Manager.initial)).
  exists {| Worker.phase := "T"; Worker.entry := 0; Worker.duration := 0.2 |}.
  split; [ | split; [ reflexivity | discriminate ] ].
  unfold intervals. cbn [Phases.first_containing].
  rewrite (proj2 (contains_in_span _ 0.1%R)); [ reflexivity | ].
  unfold Worker.in_span. cbn. lra.
Defined.
